(** * ProtectorIMG: the tiled watermark compositor of [WatermarkApp.jsx]

    A shallow embedding of the watermarking component
    ([src/components/WatermarkApp.jsx]): the React state of the component,
    the compositing effect with its delayed callback, the subset of the
    2D canvas interface the callback drives, and the steganography step of
    the download path.

    Conventions of the model.
    - JavaScript numbers that stay integral in the source (image and canvas
      dimensions, the slider values read with [parseInt]) are [Z].
    - Numbers obtained by division ([spacing], the tile coordinates, the
      drawn size of a raster signature, [opacity]) are rationals [Q], and
      [/] agrees with the source for non-zero divisors only. The callback
      is given twice: [composite] computes with them exactly, which is
      enough for the dimensions, the order and the drawing state of the
      commands and for the life of the stored result; [composite64] rounds
      every quotient, product and sum to a double as the source does, and
      is the one to ask where the tiles land and how many there are, since
      rounding decides the last round of the loops.
    - The argument of [ctx.rotate] is recorded as the angle in degrees it
      is computed from; its value as a double, the sine and cosine the
      browser takes of it and the pixels it rasterises are not represented.
    - The canvas bitmap is the ordered list of drawing commands issued
      since the last reset, each with the drawing state it was issued
      under; pixels are whatever the browser rasterises from that list.
    - Loops carry fuel; running out of fuel is [None]. *)

From Stdlib Require Import ZArith QArith Qround Qabs List String Ascii Bool Lia Lqa.
Import ListNotations.

Local Open Scope Z_scope.

(** ** Numbers *)

(** [x < y] on numbers, as a test. *)
Definition Qltb (x y : Q) : bool :=
  Qnum x * QDen y <? Qnum y * QDen x.

(** ** Strings: [substr] and [parseInt(_, 16)] *)

(** [s.substr(start, len)] for non-negative arguments. *)
Definition substr (s : string) (start len : nat) : string :=
  substring start len s.

Definition hexDigit (c : ascii) : option Z :=
  let n := Z.of_nat (nat_of_ascii c) in
  if (48 <=? n) && (n <=? 57) then Some (n - 48)
  else if (97 <=? n) && (n <=? 102) then Some (n - 87)
  else if (65 <=? n) && (n <=? 70) then Some (n - 55)
  else None.

(** The longest prefix of hexadecimal digits, accumulated from the left;
    [None] when there is no digit at all. *)
Fixpoint hexDigits (s : string) (acc : option Z) : option Z :=
  match s with
  | EmptyString => acc
  | String c rest =>
      match hexDigit c with
      | Some d =>
          hexDigits rest (Some (match acc with Some a => a * 16 + d | None => d end))
      | None => acc
      end
  end.

Definition isWhiteSpace (c : ascii) : bool :=
  let n := nat_of_ascii c in
  orb (Nat.eqb n 32) (andb (Nat.leb 9 n) (Nat.leb n 13)).

Fixpoint trimStart (s : string) : string :=
  match s with
  | String c rest => if isWhiteSpace c then trimStart rest else s
  | EmptyString => s
  end.

Definition stripHexPrefix (s : string) : string :=
  match s with
  | String "0" (String "x" rest) => rest
  | String "0" (String "X" rest) => rest
  | _ => s
  end.

(** [parseInt(s, 16)]; [None] is [NaN]. *)
Definition parseInt16 (s : string) : option Z :=
  match trimStart s with
  | String "-" rest => option_map Z.opp (hexDigits (stripHexPrefix rest) None)
  | String "+" rest => hexDigits (stripHexPrefix rest) None
  | t => hexDigits (stripHexPrefix t) None
  end.

(** ** The 2D canvas *)

Record Font := { font_px : Z; font_family : string }.

(** A colour written [rgba(r, g, b, a)]; a component that failed to parse
    is [None]. *)
Record Style := { style_r : option Z; style_g : option Z; style_b : option Z;
                  style_a : Q }.

(** The drawing state of a 2D context, as far as the component sets it.
    [gs_rotation] is the rotation of the current transform in degrees:
    [rotateDeg a] stands for [ctx.rotate((a * Math.PI) / 180)]. *)
Record GState := {
  gs_rotation : Z;
  gs_globalAlpha : Q;
  gs_font : Font;
  gs_fillStyle : Style
}.

(** Pixel data read back from a canvas ([ImageData]). *)
Record ImageData := { data_width : Z; data_height : Z; data : list Z }.

(** Images, data URLs and drawing commands refer to each other: an image
    can be loaded from the data URL of a canvas, and a canvas holds the
    images drawn on it. *)
Inductive Image : Type :=
| mkImage (width height : Z) (src : DataURL)
with DataURL : Type :=
| DataFile (bytes : list Z)
| DataEmpty
| DataPng (width height : Z) (bitmap : list DrawOp)
with DrawOp : Type :=
| DrawImage (img : Image) (dx dy : Q) (dsize : option (Q * Q)) (gs : GState)
| FillText (text : string) (x y : Q) (gs : GState)
| PutImageData (d : ImageData) (dx dy : Z).

Definition img_width (i : Image) : Z := let 'mkImage w _ _ := i in w.
Definition img_height (i : Image) : Z := let 'mkImage _ h _ := i in h.
Definition img_src (i : Image) : DataURL := let 'mkImage _ _ s := i in s.

Record Canvas := {
  cv_width : Z;
  cv_height : Z;
  cv_bitmap : list DrawOp;
  cv_state : GState;
  cv_stack : list GState
}.

Definition defaultFont : Font := {| font_px := 10; font_family := "sans-serif" |}.

Definition defaultStyle : Style :=
  {| style_r := Some 0; style_g := Some 0; style_b := Some 0; style_a := 1%Q |}.

Definition defaultGState : GState :=
  {| gs_rotation := 0; gs_globalAlpha := 1%Q; gs_font := defaultFont;
     gs_fillStyle := defaultStyle |}.

(** [document.createElement('canvas')]: 300 by 150, blank. *)
Definition createCanvas : Canvas :=
  {| cv_width := 300; cv_height := 150; cv_bitmap := []; cv_state := defaultGState;
     cv_stack := [] |}.

(** [canvas.width = v]: assigning a dimension clears the bitmap and resets
    the context, its state stack included. *)
Definition setWidth (v : Z) (c : Canvas) : Canvas :=
  {| cv_width := v; cv_height := cv_height c; cv_bitmap := [];
     cv_state := defaultGState; cv_stack := [] |}.

(** [canvas.height = v]. *)
Definition setHeight (v : Z) (c : Canvas) : Canvas :=
  {| cv_width := cv_width c; cv_height := v; cv_bitmap := [];
     cv_state := defaultGState; cv_stack := [] |}.

Definition withState (g : GState) (c : Canvas) : Canvas :=
  {| cv_width := cv_width c; cv_height := cv_height c; cv_bitmap := cv_bitmap c;
     cv_state := g; cv_stack := cv_stack c |}.

Definition emit (op : DrawOp) (c : Canvas) : Canvas :=
  {| cv_width := cv_width c; cv_height := cv_height c;
     cv_bitmap := cv_bitmap c ++ [op];
     cv_state := cv_state c; cv_stack := cv_stack c |}.

(** [ctx.save()]. *)
Definition save (c : Canvas) : Canvas :=
  {| cv_width := cv_width c; cv_height := cv_height c; cv_bitmap := cv_bitmap c;
     cv_state := cv_state c; cv_stack := cv_state c :: cv_stack c |}.

(** [ctx.restore()]; nothing happens on an empty stack. *)
Definition restore (c : Canvas) : Canvas :=
  match cv_stack c with
  | [] => c
  | g :: rest =>
      {| cv_width := cv_width c; cv_height := cv_height c;
         cv_bitmap := cv_bitmap c; cv_state := g; cv_stack := rest |}
  end.

(** [ctx.rotate((a * Math.PI) / 180)]: the drawing state keeps the sum of
    the angles [a], in degrees, of the calls made; the double handed to
    [rotate] and the transform the browser makes of it are left to the
    browser. *)
Definition rotateDeg (a : Z) (c : Canvas) : Canvas :=
  let g := cv_state c in
  withState {| gs_rotation := gs_rotation g + a; gs_globalAlpha := gs_globalAlpha g;
               gs_font := gs_font g; gs_fillStyle := gs_fillStyle g |} c.

(** [ctx.globalAlpha = v]; a value outside [0, 1] is ignored. *)
Definition setGlobalAlpha (v : Q) (c : Canvas) : Canvas :=
  let g := cv_state c in
  if Qle_bool 0 v && Qle_bool v 1 then
    withState {| gs_rotation := gs_rotation g; gs_globalAlpha := v;
                 gs_font := gs_font g; gs_fillStyle := gs_fillStyle g |} c
  else c.

(** [ctx.font = `${px}px Arial`]. *)
Definition setFont (f : Font) (c : Canvas) : Canvas :=
  let g := cv_state c in
  withState {| gs_rotation := gs_rotation g; gs_globalAlpha := gs_globalAlpha g;
               gs_font := f; gs_fillStyle := gs_fillStyle g |} c.

(** A colour string with a [NaN] component does not parse. *)
Definition validStyle (s : Style) : bool :=
  match style_r s, style_g s, style_b s with
  | Some _, Some _, Some _ => true
  | _, _, _ => false
  end.

(** [ctx.fillStyle = `rgba(...)`]; a string that does not parse as a
    colour is ignored. *)
Definition setFillStyle (s : Style) (c : Canvas) : Canvas :=
  let g := cv_state c in
  if validStyle s then
    withState {| gs_rotation := gs_rotation g; gs_globalAlpha := gs_globalAlpha g;
                 gs_font := gs_font g; gs_fillStyle := s |} c
  else c.

(** [ctx.drawImage(img, dx, dy)]. *)
Definition drawImage (img : Image) (dx dy : Q) (c : Canvas) : Canvas :=
  emit (DrawImage img dx dy None (cv_state c)) c.

(** [ctx.drawImage(img, dx, dy, dw, dh)]. *)
Definition drawImageSized (img : Image) (dx dy dw dh : Q) (c : Canvas) : Canvas :=
  emit (DrawImage img dx dy (Some (dw, dh)) (cv_state c)) c.

(** [ctx.fillText(text, x, y)]. *)
Definition fillText (text : string) (x y : Q) (c : Canvas) : Canvas :=
  emit (FillText text x y (cv_state c)) c.

(** [ctx.putImageData(d, dx, dy)]. *)
Definition putImageData (d : ImageData) (dx dy : Z) (c : Canvas) : Canvas :=
  emit (PutImageData d dx dy) c.

(** [canvas.toDataURL()]: a canvas without pixels gives ["data:,"]. *)
Definition toDataURL (c : Canvas) : DataURL :=
  if (cv_width c =? 0) || (cv_height c =? 0) then DataEmpty
  else DataPng (cv_width c) (cv_height c) (cv_bitmap c).

(** ** Loops *)

(** [for (let x = init; cond(x); x = next(x)) body(x)] over a state [St];
    [None] when the fuel runs out before [cond] fails. *)
Fixpoint for_loop {St : Type} (fuel : nat) (x : Q) (cond : Q -> St -> bool)
    (next : Q -> Q) (body : Q -> St -> option St) (s : St) : option St :=
  match fuel with
  | O => None
  | S k =>
      if cond x s then
        match body x s with
        | Some s' => for_loop k (next x) cond next body s'
        | None => None
        end
      else Some s
  end.

(** ** The compositing callback *)

(** The values the effect's callback closes over: the dependency list of the
    effect, with [image] known to be loaded. *)
Record Deps := {
  d_image : Image;
  d_signature : string;
  d_signatureImage : option Image;
  d_opacity : Q;
  d_angle : Z;
  d_density : Z;
  d_fontSize : Z;
  d_textColor : string;
  d_signatureSize : Z
}.

(** Truthiness of a string: non-empty. *)
Definition truthy (s : string) : bool := negb (String.eqb s "").

(** [Math.max(canvas.width, canvas.height) / density], the exact
    quotient. *)
Definition spacing (c : Canvas) (density : Z) : Q :=
  inject_Z (Z.max (cv_width c) (cv_height c)) / inject_Z density.

(** The pair of loops both signature kinds are tiled with:
    [for (let y = -canvas.height; y < canvas.height * 2; y += spacing)
       for (let x = -canvas.width; x < canvas.width * 2; x += spacing)
         draw(x, y)],
    the sums exact; [tileLoops64] below has them rounded, which can add a
    last row or column. *)
Definition tileLoops (fuel : nat) (sp : Q) (draw : Q -> Q -> Canvas -> Canvas)
    (c : Canvas) : option Canvas :=
  for_loop fuel (inject_Z (- cv_height c))
    (fun y c0 => Qltb y (inject_Z (cv_height c0 * 2)))
    (fun y => y + sp)%Q
    (fun y c1 =>
       for_loop fuel (inject_Z (- cv_width c1))
         (fun x c0 => Qltb x (inject_Z (cv_width c0 * 2)))
         (fun x => x + sp)%Q
         (fun x c2 => Some (draw x y c2)) c1)
    c.

(** The text branch: font, fill colour parsed from [textColor], tiles. *)
Definition drawTextWatermark (fuel : nat) (d : Deps) (sp : Q) (c : Canvas)
    : option Canvas :=
  let c := setFont {| font_px := d_fontSize d; font_family := "Arial" |} c in
  let r := parseInt16 (substr (d_textColor d) 1 2) in
  let g := parseInt16 (substr (d_textColor d) 3 2) in
  let b := parseInt16 (substr (d_textColor d) 5 2) in
  let c := setFillStyle {| style_r := r; style_g := g; style_b := b;
                           style_a := d_opacity d |} c in
  tileLoops fuel sp (fillText (d_signature d)) c.

(** The raster branch: size from [signatureSize], aspect ratio kept. *)
Definition drawImageWatermark (fuel : nat) (d : Deps) (signatureImage : Image)
    (sp : Q) (c : Canvas) : option Canvas :=
  let size := (inject_Z (cv_width c * d_signatureSize d) / 100)%Q in
  let ratio := (inject_Z (img_width signatureImage)
                / inject_Z (img_height signatureImage))%Q in
  let width := size in
  let height := (size / ratio)%Q in
  tileLoops fuel sp (fun x y => drawImageSized signatureImage x y width height) c.

(** The body of the [setTimeout] callback up to [canvas.toDataURL()]: the
    canvas after the pass and the data URL handed to [setWatermarkedImage]. *)
Definition composite (fuel : nat) (d : Deps) (canvas : Canvas)
    : option (Canvas * DataURL) :=
  let image := d_image d in
  let c := setWidth (img_width image) canvas in
  let c := setHeight (img_height image) c in
  let c := drawImage image 0 0 c in
  let sp := spacing c (d_density d) in
  let c := save c in
  let c := rotateDeg (d_angle d) c in
  let c := setGlobalAlpha (d_opacity d) c in
  match (if truthy (d_signature d) then drawTextWatermark fuel d sp c else Some c) with
  | None => None
  | Some c =>
      match (match d_signatureImage d with
             | Some si => drawImageWatermark fuel d si sp c
             | None => Some c
             end) with
      | None => None
      | Some c =>
          let c := restore c in
          Some (c, toDataURL c)
      end
  end.

(** ** The component state and its events *)

Record State := {
  signature : string;
  signatureImage : option Image;
  image : option Image;
  watermarkedImage : option DataURL;
  opacity : Q;
  angle : Z;
  density : Z;
  fontSize : Z;
  signatureSize : Z;
  textColor : string;
  isProcessing : bool;
  canvasRef : option Canvas;
  timers : list Deps
}.

(** The state after mounting: the [useState] defaults, the hidden canvas
    attached to [canvasRef], no callback pending. *)
Definition initialState : State :=
  {| signature := ""; signatureImage := None; image := None;
     watermarkedImage := None; opacity := 0.5%Q; angle := 45; density := 3;
     fontSize := 20; signatureSize := 100; textColor := "#000000";
     isProcessing := false; canvasRef := Some createCanvas; timers := [] |}.

Definition setSignature (v : string) (st : State) : State :=
  {| signature := v; signatureImage := signatureImage st; image := image st;
     watermarkedImage := watermarkedImage st; opacity := opacity st;
     angle := angle st; density := density st; fontSize := fontSize st;
     signatureSize := signatureSize st; textColor := textColor st;
     isProcessing := isProcessing st; canvasRef := canvasRef st;
     timers := timers st |}.

Definition setSignatureImage (v : option Image) (st : State) : State :=
  {| signature := signature st; signatureImage := v; image := image st;
     watermarkedImage := watermarkedImage st; opacity := opacity st;
     angle := angle st; density := density st; fontSize := fontSize st;
     signatureSize := signatureSize st; textColor := textColor st;
     isProcessing := isProcessing st; canvasRef := canvasRef st;
     timers := timers st |}.

Definition setImage (v : option Image) (st : State) : State :=
  {| signature := signature st; signatureImage := signatureImage st; image := v;
     watermarkedImage := watermarkedImage st; opacity := opacity st;
     angle := angle st; density := density st; fontSize := fontSize st;
     signatureSize := signatureSize st; textColor := textColor st;
     isProcessing := isProcessing st; canvasRef := canvasRef st;
     timers := timers st |}.

Definition setWatermarkedImage (v : option DataURL) (st : State) : State :=
  {| signature := signature st; signatureImage := signatureImage st;
     image := image st; watermarkedImage := v; opacity := opacity st;
     angle := angle st; density := density st; fontSize := fontSize st;
     signatureSize := signatureSize st; textColor := textColor st;
     isProcessing := isProcessing st; canvasRef := canvasRef st;
     timers := timers st |}.

Definition setOpacity (v : Q) (st : State) : State :=
  {| signature := signature st; signatureImage := signatureImage st;
     image := image st; watermarkedImage := watermarkedImage st; opacity := v;
     angle := angle st; density := density st; fontSize := fontSize st;
     signatureSize := signatureSize st; textColor := textColor st;
     isProcessing := isProcessing st; canvasRef := canvasRef st;
     timers := timers st |}.

Definition setAngle (v : Z) (st : State) : State :=
  {| signature := signature st; signatureImage := signatureImage st;
     image := image st; watermarkedImage := watermarkedImage st;
     opacity := opacity st; angle := v; density := density st;
     fontSize := fontSize st; signatureSize := signatureSize st;
     textColor := textColor st; isProcessing := isProcessing st;
     canvasRef := canvasRef st; timers := timers st |}.

Definition setDensity (v : Z) (st : State) : State :=
  {| signature := signature st; signatureImage := signatureImage st;
     image := image st; watermarkedImage := watermarkedImage st;
     opacity := opacity st; angle := angle st; density := v;
     fontSize := fontSize st; signatureSize := signatureSize st;
     textColor := textColor st; isProcessing := isProcessing st;
     canvasRef := canvasRef st; timers := timers st |}.

Definition setFontSize (v : Z) (st : State) : State :=
  {| signature := signature st; signatureImage := signatureImage st;
     image := image st; watermarkedImage := watermarkedImage st;
     opacity := opacity st; angle := angle st; density := density st;
     fontSize := v; signatureSize := signatureSize st;
     textColor := textColor st; isProcessing := isProcessing st;
     canvasRef := canvasRef st; timers := timers st |}.

Definition setSignatureSize (v : Z) (st : State) : State :=
  {| signature := signature st; signatureImage := signatureImage st;
     image := image st; watermarkedImage := watermarkedImage st;
     opacity := opacity st; angle := angle st; density := density st;
     fontSize := fontSize st; signatureSize := v;
     textColor := textColor st; isProcessing := isProcessing st;
     canvasRef := canvasRef st; timers := timers st |}.

Definition setTextColor (v : string) (st : State) : State :=
  {| signature := signature st; signatureImage := signatureImage st;
     image := image st; watermarkedImage := watermarkedImage st;
     opacity := opacity st; angle := angle st; density := density st;
     fontSize := fontSize st; signatureSize := signatureSize st;
     textColor := v; isProcessing := isProcessing st;
     canvasRef := canvasRef st; timers := timers st |}.

Definition setIsProcessing (v : bool) (st : State) : State :=
  {| signature := signature st; signatureImage := signatureImage st;
     image := image st; watermarkedImage := watermarkedImage st;
     opacity := opacity st; angle := angle st; density := density st;
     fontSize := fontSize st; signatureSize := signatureSize st;
     textColor := textColor st; isProcessing := v;
     canvasRef := canvasRef st; timers := timers st |}.

Definition setCanvas (v : option Canvas) (st : State) : State :=
  {| signature := signature st; signatureImage := signatureImage st;
     image := image st; watermarkedImage := watermarkedImage st;
     opacity := opacity st; angle := angle st; density := density st;
     fontSize := fontSize st; signatureSize := signatureSize st;
     textColor := textColor st; isProcessing := isProcessing st;
     canvasRef := v; timers := timers st |}.

Definition setTimers (v : list Deps) (st : State) : State :=
  {| signature := signature st; signatureImage := signatureImage st;
     image := image st; watermarkedImage := watermarkedImage st;
     opacity := opacity st; angle := angle st; density := density st;
     fontSize := fontSize st; signatureSize := signatureSize st;
     textColor := textColor st; isProcessing := isProcessing st;
     canvasRef := canvasRef st; timers := v |}.

(** [resetAll] *)
Definition resetAll (st : State) : State :=
  setTextColor "#000000" (setSignatureSize 100 (setFontSize 20 (setDensity 3
    (setAngle 45 (setOpacity 0.5%Q (setWatermarkedImage None (setImage None
      (setSignatureImage None (setSignature "" st))))))))).

(** The compositing effect, run after a render whose dependencies changed:
    the two guards, then [setIsProcessing(true)] and a callback scheduled
    with the values of this render. *)
Definition watermarkEffect (st : State) : State :=
  match image st, canvasRef st with
  | Some img, Some _ =>
      if negb (truthy (signature st)) &&
         (match signatureImage st with Some _ => false | None => true end)
      then st
      else
        setTimers (timers st ++
                   [{| d_image := img; d_signature := signature st;
                       d_signatureImage := signatureImage st;
                       d_opacity := opacity st; d_angle := angle st;
                       d_density := density st; d_fontSize := fontSize st;
                       d_textColor := textColor st;
                       d_signatureSize := signatureSize st |}])
          (setIsProcessing true st)
  | _, _ => st
  end.

(** The oldest pending callback runs: the compositing pass on the shared
    canvas, then [setWatermarkedImage(canvas.toDataURL())] and
    [setIsProcessing(false)]. Neither state setter is a dependency of the
    effect, so the effect does not run again. *)
Definition timerFires (fuel : nat) (st : State) : option State :=
  match timers st with
  | [] => Some st
  | d :: rest =>
      match canvasRef st with
      | None => Some (setTimers rest st)
      | Some canvas =>
          match composite fuel d canvas with
          | None => None
          | Some (canvas', url) =>
              Some (setIsProcessing false (setWatermarkedImage (Some url)
                     (setCanvas (Some canvas') (setTimers rest st))))
          end
      end
  end.

(** What can happen to the component. A user event sets state and the
    effect runs on the new render; an event that sets a value already held
    would not re-render, and is covered by running the effect once more,
    which schedules a pass on the same inputs. *)
Inductive Event :=
| TypeSignature (v : string)
| UploadSignatureImage (img : Image)
| RemoveSignatureImage
| UploadImage (img : Image)
| SlideOpacity (v : Q)
| SlideAngle (v : Z)
| SlideDensity (v : Z)
| SlideSize (v : Z)
| PickTextColor (v : string)
| ClickReset
| CallbackRuns.

Definition step (fuel : nat) (e : Event) (st : State) : option State :=
  match e with
  | TypeSignature v => Some (watermarkEffect (setSignature v st))
  | UploadSignatureImage img => Some (watermarkEffect (setSignatureImage (Some img) st))
  | RemoveSignatureImage => Some (watermarkEffect (setSignatureImage None st))
  | UploadImage img => Some (watermarkEffect (setImage (Some img) st))
  | SlideOpacity v => Some (watermarkEffect (setOpacity v st))
  | SlideAngle v => Some (watermarkEffect (setAngle v st))
  | SlideDensity v => Some (watermarkEffect (setDensity v st))
  | SlideSize v =>
      match signatureImage st with
      | Some _ => Some (watermarkEffect (setSignatureSize v st))
      | None => Some (watermarkEffect (setFontSize v st))
      end
  | PickTextColor v => Some (watermarkEffect (setTextColor v st))
  | ClickReset => Some (watermarkEffect (resetAll st))
  | CallbackRuns => timerFires fuel st
  end.

Fixpoint run (fuel : nat) (es : list Event) (st : State) : option State :=
  match es with
  | [] => Some st
  | e :: rest =>
      match step fuel e st with
      | Some st' => run fuel rest st'
      | None => None
      end
  end.


(** ** The download path *)

(** The settled value of the promise [applySteganography] returns, or the
    fact that it never settles (the image it waits for has no [onerror]
    handler). *)
Inductive Promise :=
| Resolved (url : DataURL)
| NeverSettles.

Section Steganography.

(** Dimensions the browser decodes from uploaded file bytes, if any. *)
Variable decodeFile : list Z -> option (Z * Z).

(** [ctx.getImageData(sx, sy, sw, sh)]: the browser's read-back of the
    rasterised bitmap; [None] when it throws. *)
Variable getImageData : Canvas -> Z -> Z -> Z -> Z -> option ImageData.

(** [encode] of [ts-steganography]; [None] when it throws or rejects. *)
Variable encode : string -> ImageData -> option ImageData.

(** [new Date().getFullYear()], printed. *)
Variable fullYear : string.

(** [img.src = url] followed by [onload]; [None] when the image never
    loads. *)
Definition loadImage (url : DataURL) : option Image :=
  match url with
  | DataPng w h _ => Some (mkImage w h url)
  | DataEmpty => None
  | DataFile bytes =>
      match decodeFile bytes with
      | Some (w, h) => Some (mkImage w h url)
      | None => None
      end
  end.

Definition hiddenMessage : string := "Copyright " ++ fullYear.

Definition applySteganography (imageUrl : DataURL) : Promise :=
  match loadImage imageUrl with
  | None => NeverSettles
  | Some img =>
      let canvas := createCanvas in
      let canvas := setWidth (img_width img) canvas in
      let canvas := setHeight (img_height img) canvas in
      let canvas := drawImage img 0 0 canvas in
      match getImageData canvas 0 0 (cv_width canvas) (cv_height canvas) with
      | None => Resolved imageUrl
      | Some imageData =>
          match encode hiddenMessage imageData with
          | None => Resolved imageUrl
          | Some encoded =>
              Resolved (toDataURL (putImageData encoded 0 0 canvas))
          end
      end
  end.

(** [handleDownload] opens the verification dialog only when there is a
    result to download. *)
Definition handleDownload (st : State) : bool :=
  match watermarkedImage st with Some _ => true | None => false end.

(** [handleVerifiedDownload]: the [href] of the download link. *)
Definition handleVerifiedDownload (st : State) : Promise :=
  match watermarkedImage st with
  | Some url => applySteganography url
  | None => NeverSettles
  end.

End Steganography.

(** ** Reading a result *)

Definition urlBitmap (u : DataURL) : list DrawOp :=
  match u with
  | DataPng _ _ ops => ops
  | _ => []
  end.

Definition urlSize (u : DataURL) : option (Z * Z) :=
  match u with
  | DataPng w h _ => Some (w, h)
  | _ => None
  end.

(** The points a loop [for (x = start; x < stop; x += sp)] visits when it
    makes [n] rounds, built by the same additions. *)
Fixpoint points (n : nat) (x sp : Q) : list Q :=
  match n with
  | O => []
  | S k => x :: points k (x + sp)%Q sp
  end.

(** Number of rounds of [for (x = -dim; x < dim * 2; x += sp)]. *)
Definition rounds (dim : Z) (sp : Q) : nat :=
  Z.to_nat (Qceiling (inject_Z (3 * dim) / sp)).

(** A loop body run over a list of loop values. *)
Fixpoint foldM {St : Type} (body : Q -> St -> option St) (l : list Q) (s : St)
    : option St :=
  match l with
  | [] => Some s
  | x :: rest =>
      match body x s with
      | Some s' => foldM body rest s'
      | None => None
      end
  end.

(** Several commands appended to the bitmap. *)
Definition emits (ops : list DrawOp) (c : Canvas) : Canvas :=
  {| cv_width := cv_width c; cv_height := cv_height c;
     cv_bitmap := cv_bitmap c ++ ops;
     cv_state := cv_state c; cv_stack := cv_stack c |}.

(** The commands of one tiling pass over a [w] by [h] canvas: rows of
    [y], each row running over [x]. *)
Definition tileOps (w h : Z) (sp : Q) (op : Q -> Q -> DrawOp) : list DrawOp :=
  flat_map (fun y => map (fun x => op x y) (points (rounds w sp) (inject_Z (- w)) sp))
           (points (rounds h sp) (inject_Z (- h)) sp).

(** The drawing state after [save], [rotate] and [globalAlpha]. *)
Definition setupState (d : Deps) : GState :=
  {| gs_rotation := 0 + d_angle d;
     gs_globalAlpha := if Qle_bool 0 (d_opacity d) && Qle_bool (d_opacity d) 1
                       then d_opacity d else 1%Q;
     gs_font := defaultFont; gs_fillStyle := defaultStyle |}.

(** The fill colour the text branch asks for. *)
Definition textStyle (d : Deps) : Style :=
  {| style_r := parseInt16 (substr (d_textColor d) 1 2);
     style_g := parseInt16 (substr (d_textColor d) 3 2);
     style_b := parseInt16 (substr (d_textColor d) 5 2);
     style_a := d_opacity d |}.

(** The drawing state the text tiles are drawn under. *)
Definition textState (d : Deps) : GState :=
  {| gs_rotation := gs_rotation (setupState d);
     gs_globalAlpha := gs_globalAlpha (setupState d);
     gs_font := {| font_px := d_fontSize d; font_family := "Arial" |};
     gs_fillStyle := if validStyle (textStyle d) then textStyle d
                     else defaultStyle |}.

(** The drawing state the raster tiles are drawn under: the text branch,
    when it ran, has left its font and fill colour behind. *)
Definition rasterState (d : Deps) : GState :=
  if truthy (d_signature d) then textState d else setupState d.

Definition baseSpacing (d : Deps) : Q :=
  inject_Z (Z.max (img_width (d_image d)) (img_height (d_image d)))
  / inject_Z (d_density d).

Definition rasterSize (d : Deps) (si : Image) : Q * Q :=
  let size := (inject_Z (img_width (d_image d) * d_signatureSize d) / 100)%Q in
  (size, (size / (inject_Z (img_width si) / inject_Z (img_height si)))%Q).

Definition textOps (d : Deps) : list DrawOp :=
  if truthy (d_signature d) then
    tileOps (img_width (d_image d)) (img_height (d_image d)) (baseSpacing d)
      (fun x y => FillText (d_signature d) x y (textState d))
  else [].

Definition rasterOps (d : Deps) : list DrawOp :=
  match d_signatureImage d with
  | Some si =>
      tileOps (img_width (d_image d)) (img_height (d_image d)) (baseSpacing d)
        (fun x y => DrawImage si x y (Some (rasterSize d si)) (rasterState d))
  | None => []
  end.

(** The bitmap a compositing pass leaves: the base image, the text tiles,
    the raster tiles. *)
Definition compositeBitmap (d : Deps) : list DrawOp :=
  DrawImage (d_image d) 0 0 None defaultGState :: textOps d ++ rasterOps d.

(** What a pass on a base image of positive dimensions leaves and returns. *)
Definition passResult (d : Deps) : Canvas * DataURL :=
  ({| cv_width := img_width (d_image d); cv_height := img_height (d_image d);
      cv_bitmap := compositeBitmap d; cv_state := defaultGState;
      cv_stack := [] |},
   DataPng (img_width (d_image d)) (img_height (d_image d)) (compositeBitmap d)).

(** A canvas that has been drawn on and rotated before. *)
Definition usedCanvas : Canvas :=
  rotateDeg 90 (fillText "old" 1 2 (save createCanvas)).

Definition withAngle (a : Z) (d : Deps) : Deps :=
  {| d_image := d_image d; d_signature := d_signature d;
     d_signatureImage := d_signatureImage d; d_opacity := d_opacity d;
     d_angle := a; d_density := d_density d; d_fontSize := d_fontSize d;
     d_textColor := d_textColor d; d_signatureSize := d_signatureSize d |}.


(** [k] as a number. *)
Definition qnat (k : nat) : Q := inject_Z (Z.of_nat k).

(** What the loops rely on while they draw: the canvas keeps its
    dimensions and its drawing state. *)
Definition steady (w h : Z) (g : GState) (c : Canvas) : Prop :=
  cv_width c = w /\ cv_height c = h /\ cv_state c = g.

(** A command that draws a tile: text, or an image drawn at a given size
    (the base image is drawn at its own size). *)
Definition isTile (op : DrawOp) : bool :=
  match op with
  | FillText _ _ _ _ => true
  | DrawImage _ _ _ (Some _) _ => true
  | _ => false
  end.

Definition tileCount (ops : list DrawOp) : nat := List.length (filter isTile ops).

(** The point a command is issued at, in the coordinates of its drawing
    state. *)
Definition anchor (op : DrawOp) : Q * Q :=
  match op with
  | DrawImage _ x y _ _ => (x, y)
  | FillText _ x y _ => (x, y)
  | PutImageData _ x y => (inject_Z x, inject_Z y)
  end.

(** ** Scenarios *)

(** An 800 by 600 artwork and a 200 by 100 signature picture. *)
Definition artwork : Image := mkImage 800 600 (DataFile [137; 80; 78; 71]).

Definition signaturePng : Image := mkImage 200 100 (DataFile [137; 80; 78; 71]).

(** Text signature "Jane Doe", opacity 0.5, angle 45, density 3. *)
Definition janeDoe : Deps :=
  {| d_image := artwork; d_signature := "Jane Doe"; d_signatureImage := None;
     d_opacity := 0.5%Q; d_angle := 45; d_density := 3; d_fontSize := 20;
     d_textColor := "#000000"; d_signatureSize := 100 |}.


(** Text and raster signature together. *)
Definition bothKinds : Deps :=
  {| d_image := artwork; d_signature := "Jane Doe";
     d_signatureImage := Some signaturePng; d_opacity := 0.5%Q; d_angle := 45;
     d_density := 3; d_fontSize := 20; d_textColor := "#000000";
     d_signatureSize := 100 |}.

(** The component after a list of events from its initial state. *)
Definition stateAfter (es : list Event) : State :=
  match run 10 es initialState with
  | Some st => st
  | None => initialState
  end.

(** The artwork uploaded, "Jane Doe" typed, the compositing callback run. *)
Definition signedState : State :=
  stateAfter [UploadImage artwork; TypeSignature "Jane Doe"; CallbackRuns].

Definition resultOf (st : State) : DataURL :=
  match watermarkedImage st with
  | Some url => url
  | None => DataEmpty
  end.



(** A codec that always throws, and a read-back that always succeeds. *)
Definition failingEncode (_ : string) (_ : ImageData) : option ImageData := None.

Definition blankRead (_ : Canvas) (_ _ w h : Z) : option ImageData :=
  Some {| data_width := w; data_height := h; data := [] |}.

Definition noFile (_ : list Z) : option (Z * Z) := None.

(** ** Files and uploads *)

(** [s.match(p)] for a pattern [p] of plain characters: [p] occurs
    somewhere in [s]. The base-image pattern ['image.*'] finds a match
    exactly where ["image"] occurs, its [.*] taking whatever follows. *)
Fixpoint includes (p s : string) : bool :=
  match s with
  | EmptyString => prefix p s
  | String _ rest => prefix p s || includes p rest
  end.

(** A file handed to an upload handler: its MIME type, and the image the
    reader and the decoder make of it, if it ever loads. *)
Record File := { file_type : string; file_decoded : option Image }.

(** [showNotification(message, type)]: the message key and the type; the
    look-up of the key in the translations is left out. *)
Record Notice := { notice_message : string; notice_type : string }.

(** [handleImageUpload]: the first file of the picker. *)
Definition handleImageUpload (files : list File) (st : State)
    : State * option Notice :=
  match files with
  | file :: _ =>
      if includes "image" (file_type file) then
        match file_decoded file with
        | Some img =>
            (watermarkEffect (setImage (Some img) st),
             Some {| notice_message := "imageUploaded"; notice_type := "success" |})
        | None => (st, None)
        end
      else (st, None)
  | [] => (st, None)
  end.

(** The component together with the highlight of its drop area, the
    [isDragging] state of its own: only the three drag handlers set it. *)
Record UploadArea := { area_state : State; isDragging : bool }.

(** [handleDragOver] and [handleDragLeave]. *)
Definition handleDragOver (a : UploadArea) : UploadArea :=
  {| area_state := area_state a; isDragging := true |}.

Definition handleDragLeave (a : UploadArea) : UploadArea :=
  {| area_state := area_state a; isDragging := false |}.

(** [handleDrop]: [setIsDragging(false)], then the first file dropped on
    the upload area. *)
Definition handleDrop (files : list File) (a : UploadArea)
    : UploadArea * option Notice :=
  let a := {| area_state := area_state a; isDragging := false |} in
  match files with
  | file :: _ =>
      if includes "image" (file_type file) then
        match file_decoded file with
        | Some img =>
            ({| area_state := watermarkEffect (setImage (Some img) (area_state a));
                isDragging := isDragging a |},
             Some {| notice_message := "imageUploaded"; notice_type := "success" |})
        | None => (a, None)
        end
      else
        (a, Some {| notice_message := "invalidImage"; notice_type := "error" |})
  | [] => (a, None)
  end.

(** The signature picture is drawn on a canvas of its own size and read
    back as a PNG; [None] when that PNG never loads. *)
Definition processSignature (img : Image) : option Image :=
  let canvas := createCanvas in
  let canvas := setWidth (img_width img) canvas in
  let canvas := setHeight (img_height img) canvas in
  let canvas := drawImage img 0 0 canvas in
  loadImage (fun _ => None) (toDataURL canvas).

(** [handleSignatureImageUpload]. *)
Definition handleSignatureImageUpload (files : list File) (st : State)
    : State * option Notice :=
  match files with
  | [] => (st, None)
  | file :: _ =>
      if negb (includes "image/png" (file_type file)) then
        (st, Some {| notice_message := "invalidSignatureImage";
                     notice_type := "error" |})
      else
        match file_decoded file with
        | None => (st, None)
        | Some img =>
            match processSignature img with
            | None => (st, None)
            | Some processedImg =>
                (watermarkEffect (setSignatureImage (Some processedImg) st),
                 Some {| notice_message := "signatureImageUploaded";
                         notice_type := "success" |})
            end
        end
  end.

(** ** Double precision

    The numbers of the source are IEEE 754 doubles. An operation on
    doubles returns the exact result rounded to 53 significant bits, to
    nearest, ties to even; the values met here (dimensions, spacings, tile
    coordinates, sizes) stay far from the ends of the exponent range, so
    that is all there is to it. [round64] is that rounding on rationals. *)

(** [n / d] rounded to an integer, to nearest, ties to even. *)
Definition roundHalfEven (n d : Z) : Z :=
  let q := n / d in
  let r := n mod d in
  if 2 * r <? d then q
  else if d <? 2 * r then q + 1
  else if Z.even q then q else q + 1.

(** Numerator and denominator of [(n / d) / 2 ^ e]. *)
Definition scaled (e n d : Z) : Z * Z :=
  (n * 2 ^ Z.max 0 (- e), d * 2 ^ Z.max 0 e).

(** The exponent [e] of the last place of [n / d > 0]:
    [2 ^ 52 <= (n / d) / 2 ^ e < 2 ^ 53]. *)
Definition exponentOf (n d : Z) : Z :=
  let e0 := Z.log2 n - Z.log2 d - 53 in
  if 2 ^ 52 * snd (scaled (e0 + 1) n d) <=? fst (scaled (e0 + 1) n d)
  then e0 + 1 else e0.

Definition roundPos (n d : Z) : Q :=
  let e := exponentOf n d in
  let M := roundHalfEven (fst (scaled e n d)) (snd (scaled e n d)) in
  (inject_Z (M * 2 ^ Z.max 0 e) / inject_Z (2 ^ Z.max 0 (- e)))%Q.

Definition round64 (q : Q) : Q :=
  match Qnum q with
  | 0 => 0%Q
  | Z.pos n => roundPos (Z.pos n) (QDen q)
  | Z.neg n => (- roundPos (Z.pos n) (QDen q))%Q
  end.

(** Half a unit in the last place, relative: [2 ^ -53]. *)
Definition eps : Q := 1 # 9007199254740992.

(** [x + y], [x * y] and [x / y] on doubles. *)
Definition fadd (x y : Q) : Q := round64 (x + y).
Definition fmul (x y : Q) : Q := round64 (x * y).
Definition fdiv (x y : Q) : Q := round64 (x / y).

(** ** The compositing callback in double precision

    The same callback as [composite], with every division, product and
    [+=] of the source rounded as the source rounds it. *)

(** [Math.max(canvas.width, canvas.height) / density], as a double. *)
Definition spacing64 (c : Canvas) (density : Z) : Q :=
  fdiv (inject_Z (Z.max (cv_width c) (cv_height c))) (inject_Z density).

(** The pair of loops, [y += spacing] and [x += spacing] rounded. *)
Definition tileLoops64 (fuel : nat) (sp : Q) (draw : Q -> Q -> Canvas -> Canvas)
    (c : Canvas) : option Canvas :=
  for_loop fuel (inject_Z (- cv_height c))
    (fun y c0 => Qltb y (inject_Z (cv_height c0 * 2)))
    (fun y => fadd y sp)
    (fun y c1 =>
       for_loop fuel (inject_Z (- cv_width c1))
         (fun x c0 => Qltb x (inject_Z (cv_width c0 * 2)))
         (fun x => fadd x sp)
         (fun x c2 => Some (draw x y c2)) c1)
    c.

Definition drawTextWatermark64 (fuel : nat) (d : Deps) (sp : Q) (c : Canvas)
    : option Canvas :=
  let c := setFont {| font_px := d_fontSize d; font_family := "Arial" |} c in
  let r := parseInt16 (substr (d_textColor d) 1 2) in
  let g := parseInt16 (substr (d_textColor d) 3 2) in
  let b := parseInt16 (substr (d_textColor d) 5 2) in
  let c := setFillStyle {| style_r := r; style_g := g; style_b := b;
                           style_a := d_opacity d |} c in
  tileLoops64 fuel sp (fillText (d_signature d)) c.

Definition drawImageWatermark64 (fuel : nat) (d : Deps) (signatureImage : Image)
    (sp : Q) (c : Canvas) : option Canvas :=
  let size := fdiv (fmul (inject_Z (cv_width c)) (inject_Z (d_signatureSize d)))
                   100 in
  let ratio := fdiv (inject_Z (img_width signatureImage))
                    (inject_Z (img_height signatureImage)) in
  let width := size in
  let height := fdiv size ratio in
  tileLoops64 fuel sp (fun x y => drawImageSized signatureImage x y width height) c.

Definition composite64 (fuel : nat) (d : Deps) (canvas : Canvas)
    : option (Canvas * DataURL) :=
  let image := d_image d in
  let c := setWidth (img_width image) canvas in
  let c := setHeight (img_height image) c in
  let c := drawImage image 0 0 c in
  let sp := spacing64 c (d_density d) in
  let c := save c in
  let c := rotateDeg (d_angle d) c in
  let c := setGlobalAlpha (d_opacity d) c in
  match (if truthy (d_signature d) then drawTextWatermark64 fuel d sp c
         else Some c) with
  | None => None
  | Some c =>
      match (match d_signatureImage d with
             | Some si => drawImageWatermark64 fuel d si sp c
             | None => Some c
             end) with
      | None => None
      | Some c =>
          let c := restore c in
          Some (c, toDataURL c)
      end
  end.

(** The values [for (x = start; x < stop; x += sp)] visits, as far as the
    fuel reaches. *)
Fixpoint range64 (fuel : nat) (x stop sp : Q) : list Q :=
  match fuel with
  | O => []
  | S k => if Qltb x stop then x :: range64 k (fadd x sp) stop sp else []
  end.

(** The value of the loop variable in round [i]: [i] times [+= sp] from
    [start]. *)
Definition loopValue (sp start : Q) (i : nat) : Q :=
  Nat.iter i (fun x => fadd x sp) start.

(** The commands of one tiling pass in double precision. *)
Definition tileOps64 (fuel : nat) (w h : Z) (sp : Q) (op : Q -> Q -> DrawOp)
    : list DrawOp :=
  flat_map (fun y => map (fun x => op x y)
                       (range64 fuel (inject_Z (- w)) (inject_Z (w * 2)) sp))
           (range64 fuel (inject_Z (- h)) (inject_Z (h * 2)) sp).

Definition baseSpacing64 (d : Deps) : Q :=
  fdiv (inject_Z (Z.max (img_width (d_image d)) (img_height (d_image d))))
       (inject_Z (d_density d)).

Definition rasterSize64 (d : Deps) (si : Image) : Q * Q :=
  let size := fdiv (fmul (inject_Z (img_width (d_image d)))
                         (inject_Z (d_signatureSize d))) 100 in
  (size, fdiv size (fdiv (inject_Z (img_width si)) (inject_Z (img_height si)))).

Definition textOps64 (fuel : nat) (d : Deps) : list DrawOp :=
  if truthy (d_signature d) then
    tileOps64 fuel (img_width (d_image d)) (img_height (d_image d))
      (baseSpacing64 d)
      (fun x y => FillText (d_signature d) x y (textState d))
  else [].

Definition rasterOps64 (fuel : nat) (d : Deps) : list DrawOp :=
  match d_signatureImage d with
  | Some si =>
      tileOps64 fuel (img_width (d_image d)) (img_height (d_image d))
        (baseSpacing64 d)
        (fun x y => DrawImage si x y (Some (rasterSize64 d si)) (rasterState d))
  | None => []
  end.

Definition compositeBitmap64 (fuel : nat) (d : Deps) : list DrawOp :=
  DrawImage (d_image d) 0 0 None defaultGState
  :: textOps64 fuel d ++ rasterOps64 fuel d.

(** What a pass in double precision leaves and returns. *)
Definition passResult64 (fuel : nat) (d : Deps) : Canvas * DataURL :=
  ({| cv_width := img_width (d_image d); cv_height := img_height (d_image d);
      cv_bitmap := compositeBitmap64 fuel d; cv_state := defaultGState;
      cv_stack := [] |},
   DataPng (img_width (d_image d)) (img_height (d_image d))
     (compositeBitmap64 fuel d)).

(** A larger artwork, 1024 by 768, with the same text and parameters. *)
Definition wideArtwork : Image := mkImage 1024 768 (DataFile [137; 80; 78; 71]).

Definition janeDoeWide : Deps :=
  {| d_image := wideArtwork; d_signature := "Jane Doe"; d_signatureImage := None;
     d_opacity := 0.5%Q; d_angle := 45; d_density := 3; d_fontSize := 20;
     d_textColor := "#000000"; d_signatureSize := 100 |}.

(** A 512 by 512 artwork with the same text at the highest density. *)
Definition squareArtwork : Image := mkImage 512 512 (DataFile [137; 80; 78; 71]).

Definition janeDoeDense : Deps :=
  {| d_image := squareArtwork; d_signature := "Jane Doe";
     d_signatureImage := None;
     d_opacity := 0.5%Q; d_angle := 45; d_density := 5; d_fontSize := 20;
     d_textColor := "#000000"; d_signatureSize := 100 |}.

(** ** The verification dialogs *)

(** [s.charAt(i)]: the empty string out of range. *)
Definition charAt (s : string) (i : Z) : string :=
  if i <? 0 then ""
  else match get (Z.to_nat i) s with
       | Some c => String c ""
       | None => ""
       end.

Definition chars : string := "0123456789ABCDEFGHIJKLMNOPQRSTUVWXYZ".

(** The rounds of the loop of [generateCaptcha] that are left; [random k]
    is the value of the [k]-th call of [Math.random()]. *)
Fixpoint generateCaptchaRounds (n : nat) (random : nat -> Q) (k : nat)
    (result : string) : string :=
  match n with
  | O => result
  | S n' =>
      generateCaptchaRounds n' random (S k)
        (result ++ charAt chars
                     (Qfloor (random k * inject_Z (Z.of_nat (String.length chars)))))
  end.

(** [generateCaptcha]: six rounds from the empty string. *)
Definition generateCaptcha (random : nat -> Q) : string :=
  generateCaptchaRounds 6 random 0 "".

Definition upperChar (c : ascii) : ascii :=
  let n := nat_of_ascii c in
  if Nat.leb 97 n && Nat.leb n 122 then ascii_of_nat (n - 32) else c.

(** [s.toUpperCase()] on strings of ASCII characters. *)
Fixpoint toUpperCase (s : string) : string :=
  match s with
  | EmptyString => EmptyString
  | String c rest => String (upperChar c) (toUpperCase rest)
  end.

(** The dialog that shows a generated text. *)
Module TextCaptcha.

Record t := { captcha : string; input : string; error : bool }.

(** [handleSubmit]: the state of the dialog and whether [onVerify] was
    called; [random] feeds the next [generateCaptcha()]. *)
Definition handleSubmit (random : nat -> Q) (m : t) : t * bool :=
  if String.eqb (toUpperCase (input m)) (captcha m) then (m, true)
  else ({| captcha := generateCaptcha random; input := ""; error := true |},
        false).

End TextCaptcha.

(** The dialog that embeds the reCAPTCHA widget. *)
Module CaptchaModal.

Inductive Problem := captchaExpired | captchaError | captchaRequired.

Record t := { verified : bool; error : option Problem }.

Definition initial : t := {| verified := false; error := None |}.

(** [handleVerify(token)]; a missing token is [None]. *)
Definition handleVerify (token : option string) (m : t) : t :=
  match token with
  | Some tok => if truthy tok then {| verified := true; error := None |} else m
  | None => m
  end.

Definition handleExpired (m : t) : t :=
  {| verified := false; error := Some captchaExpired |}.

Definition handleError (m : t) : t :=
  {| verified := false; error := Some captchaError |}.

(** [handleSubmit]: the state, and whether [onVerify] and [onClose] were
    called. *)
Definition handleSubmit (m : t) : t * bool :=
  if negb (verified m)
  then ({| verified := verified m; error := Some captchaRequired |}, false)
  else (m, true).

(** The dialog is a component declared inside the body of the main
    component: when that one renders again the dialog is created anew,
    with its initial state. *)
Inductive Event :=
| Change (token : option string)
| Expired
| Errored
| Submit
| Remount.

Definition step (e : Event) (m : t) : t :=
  match e with
  | Change token => handleVerify token m
  | Expired => handleExpired m
  | Errored => handleError m
  | Submit => fst (handleSubmit m)
  | Remount => initial
  end.

(** The dialog after a list of widget and form events, oldest first. *)
Definition after (es : list Event) : t :=
  fold_left (fun m e => step e m) es initial.

Definition revokes (e : Event) : bool :=
  match e with
  | Expired | Errored | Remount => true
  | _ => false
  end.

End CaptchaModal.

(** ** The donation dialog *)

Module Donation.

Inductive Status := considered | donated.

Record t := { donationStatus : option Status; showDonationModal : bool }.

(** [handleDonate(platform)]; the link for any platform other than
    ['paypal'] is an undeclared name, so reading it throws ([None]) before
    any state is set. *)
Definition handleDonate (platform : string) (s : t) : option t :=
  if String.eqb platform "paypal"
  then Some {| donationStatus := Some donated; showDonationModal := false |}
  else None.

Definition handleCloseModal (s : t) : t :=
  {| donationStatus := match donationStatus s with
                       | None => Some considered
                       | other => other
                       end;
     showDonationModal := false |}.

(** The "Maybe Later" button. *)
Definition maybeLater (s : t) : t :=
  {| donationStatus := Some considered; showDonationModal := false |}.

(** The buttons of the dialog; "Maybe Later" and the donation button are
    rendered only while no status is recorded. *)
Inductive Click := Donate (platform : string) | Close | Later.

Definition click (c : Click) (s : t) : t :=
  match c with
  | Donate platform =>
      match donationStatus s with
      | None => match handleDonate platform s with Some s' => s' | None => s end
      | Some _ => s
      end
  | Close => handleCloseModal s
  | Later =>
      match donationStatus s with
      | None => maybeLater s
      | Some _ => s
      end
  end.

End Donation.

(** ** The language switch ([App.jsx]) *)

Definition toggleLanguage (prevLang : string) : string :=
  if String.eqb prevLang "en" then "es" else "en".


(** ** Well-formed inputs *)

Definition hasSignature (d : Deps) : bool :=
  truthy (d_signature d) ||
  match d_signatureImage d with Some _ => true | None => false end.

(** A loaded base image has positive dimensions, and the density slider
    runs from 1 to 5. *)
Definition wfEvent (e : Event) : bool :=
  match e with
  | UploadImage img => (0 <? img_width img) && (0 <? img_height img)
  | SlideDensity v => (1 <=? v) && (v <=? 5)
  | _ => true
  end.

Definition wfDeps (d : Deps) : Prop :=
  0 < img_width (d_image d) /\ 0 < img_height (d_image d) /\
  1 <= d_density d <= 5 /\ hasSignature d = true.

(** What holds of the component between events. *)
Definition settled (st : State) : Prop :=
  1 <= density st <= 5 /\
  canvasRef st <> None /\
  (forall img, image st = Some img -> 0 < img_width img /\ 0 < img_height img) /\
  Forall wfDeps (timers st) /\
  (forall url, watermarkedImage st = Some url ->
     exists d, wfDeps d /\ url = snd (passResult d)) /\
  (timers st = [] -> isProcessing st = false).

(** A source of random numbers in [0, 1): 1/2, 1/3, 1/4, ... *)
Definition harmonic (j : nat) : Q := 1 # Pos.of_succ_nat (S j).

(** Side conditions of the scenarios: closed comparisons of dimensions,
    density and fuel. *)
Ltac scenario := solve [cbn; lia | reflexivity].

(** ** Loops: fuel and unrolling *)

Lemma Qltb_lt (x y : Q) : Qltb x y = true <-> (x < y)%Q.
Proof. unfold Qltb, Qlt. apply Z.ltb_lt. Qed.

Lemma Qltb_nlt (x y : Q) : Qltb x y = false <-> ~ (x < y)%Q.
Proof.
  rewrite <- Qltb_lt. destruct (Qltb x y); split; congruence.
Qed.

(** More fuel, and a body that settles wherever the first one does, never
    change a result. *)
Lemma for_loop_mono {St : Type} (cond : Q -> St -> bool) (next : Q -> Q)
    (body body' : Q -> St -> option St) :
  (forall x s r, body x s = Some r -> body' x s = Some r) ->
  forall fuel fuel' x s r,
    (fuel <= fuel')%nat ->
    for_loop fuel x cond next body s = Some r ->
    for_loop fuel' x cond next body' s = Some r.
Proof.
  intros Hbody fuel.
  induction fuel as [|k IH]; intros fuel' x s r Hle Hrun; [discriminate|].
  destruct fuel' as [|k']; [lia|].
  simpl in *. destruct (cond x s); [|assumption].
  destruct (body x s) as [s'|] eqn:Hb; [|discriminate].
  rewrite (Hbody _ _ _ Hb). apply IH; [lia|assumption].
Qed.

Lemma qnat_0 : (qnat 0 == 0)%Q.
Proof. reflexivity. Qed.

Lemma qnat_succ (k : nat) : (qnat (S k) == qnat k + 1)%Q.
Proof.
  unfold qnat. rewrite Nat2Z.inj_succ. unfold Z.succ.
  rewrite inject_Z_plus. reflexivity.
Qed.

(** A loop whose test is [x < stop] on every state it meets makes exactly
    [n] rounds when round [n] is the first to fail the test. *)
Lemma for_loop_unroll {St : Type} (P : St -> Prop) (cond : Q -> St -> bool)
    (body : Q -> St -> option St) (stop sp : Q) :
  (forall x s, P s -> cond x s = Qltb x stop) ->
  (forall x s s', P s -> body x s = Some s' -> P s') ->
  forall n fuel x s,
    P s -> (n < fuel)%nat ->
    (forall k, (k < n)%nat -> (x + qnat k * sp < stop)%Q) ->
    ~ (x + qnat n * sp < stop)%Q ->
    for_loop fuel x cond (fun x => x + sp)%Q body s = foldM body (points n x sp) s.
Proof.
  intros Hcond Hinv n.
  induction n as [|n IH]; intros fuel x s HP Hfuel Hin Hout;
    (destruct fuel as [|fuel]; [lia|]); simpl.
  - rewrite (Hcond _ _ HP).
    assert (Hf : Qltb x stop = false).
    { apply Qltb_nlt. intro H. apply Hout. rewrite qnat_0. lra. }
    rewrite Hf. reflexivity.
  - rewrite (Hcond _ _ HP).
    assert (Ht : Qltb x stop = true).
    { apply Qltb_lt. specialize (Hin O ltac:(lia)). rewrite qnat_0 in Hin.
      lra. }
    rewrite Ht. destruct (body x s) as [s'|] eqn:Hb; [|reflexivity].
    apply IH.
    + eapply Hinv; eassumption.
    + lia.
    + intros k Hk. specialize (Hin (S k) ltac:(lia)).
      rewrite qnat_succ in Hin. lra.
    + intro H. apply Hout. rewrite qnat_succ. lra.
Qed.

(** ** Counting the rounds of the tiling loops *)

Lemma inject_Z_pos (z : Z) : 0 < z -> (0 < inject_Z z)%Q.
Proof. intro H. change 0%Q with (inject_Z 0). rewrite <- Zlt_Qlt. exact H. Qed.

Lemma rounds_ceiling (dim : Z) (sp : Q) :
  (0 < sp)%Q -> 0 < dim ->
  Z.of_nat (rounds dim sp) = Qceiling (inject_Z (3 * dim) / sp).
Proof.
  intros Hsp Hdim. unfold rounds. apply Z2Nat.id.
  assert (Hq : (0 < inject_Z (3 * dim) / sp)%Q).
  { apply Qlt_shift_div_l; [assumption|]. rewrite Qmult_0_l.
    apply inject_Z_pos. lia. }
  pose proof (Qle_ceiling (inject_Z (3 * dim) / sp)) as Hc.
  assert (Hlt : (inject_Z 0 < inject_Z (Qceiling (inject_Z (3 * dim) / sp)))%Q).
  { change (inject_Z 0) with 0%Q. lra. }
  rewrite <- Zlt_Qlt in Hlt. lia.
Qed.

(** The loop [for (x = -dim; x < dim * 2; x += sp)] passes its test on
    rounds [0 .. rounds dim sp - 1] and fails it on the next. *)
Lemma rounds_spec (dim : Z) (sp : Q) :
  (0 < sp)%Q -> 0 < dim ->
  (forall k, (k < rounds dim sp)%nat ->
             (inject_Z (- dim) + qnat k * sp < inject_Z (dim * 2))%Q) /\
  ~ (inject_Z (- dim) + qnat (rounds dim sp) * sp < inject_Z (dim * 2))%Q.
Proof.
  intros Hsp Hdim.
  pose proof (rounds_ceiling dim sp Hsp Hdim) as Hn.
  set (q := (inject_Z (3 * dim) / sp)%Q) in *.
  assert (Hq : (q * sp == 3 * inject_Z dim)%Q).
  { unfold q. rewrite inject_Z_mult. change (inject_Z 3) with 3%Q.
    field. intro E. rewrite E in Hsp. discriminate. }
  rewrite inject_Z_opp, inject_Z_mult. change (inject_Z 2) with 2%Q.
  split.
  - intros k Hk.
    assert (Hk' : (qnat k <= inject_Z (Qceiling q - 1))%Q).
    { unfold qnat. rewrite <- Zle_Qle. lia. }
    pose proof (Qceiling_lt q) as Hlt.
    assert (Hks : (qnat k * sp < q * sp)%Q).
    { apply Qmult_lt_compat_r; [assumption|]. lra. }
    lra.
  - intro H.
    assert (Hge : (q * sp <= qnat (rounds dim sp) * sp)%Q).
    { apply Qmult_le_compat_r; [|lra]. unfold qnat. rewrite Hn.
      apply Qle_ceiling. }
    lra.
Qed.

Lemma baseSpacing_pos (m den : Z) :
  0 < m -> 0 < den -> (0 < inject_Z m / inject_Z den)%Q.
Proof.
  intros Hm Hd. apply Qlt_shift_div_l; [apply inject_Z_pos; assumption|].
  rewrite Qmult_0_l. apply inject_Z_pos. assumption.
Qed.

(** With [spacing = max / density] a loop over a dimension that does not
    exceed [max] makes at most [3 * density] rounds. *)
Lemma rounds_le (dim m den : Z) :
  0 < dim -> dim <= m -> 0 < den ->
  (rounds dim (inject_Z m / inject_Z den) <= Z.to_nat (3 * den))%nat.
Proof.
  intros Hdim Hm Hden. unfold rounds. apply Z2Nat.inj_le.
  - pose proof (baseSpacing_pos m den ltac:(lia) Hden) as Hsp.
    pose proof (rounds_ceiling dim _ Hsp Hdim) as E. rewrite <- E. lia.
  - lia.
  - rewrite <- (Qceiling_Z (3 * den)). apply Qceiling_resp_le.
    pose proof (inject_Z_pos m ltac:(lia)) as Hm'.
    pose proof (inject_Z_pos den Hden) as Hd'.
    apply Qle_shift_div_r; [apply baseSpacing_pos; lia|].
    assert (E : (inject_Z (3 * den) * (inject_Z m / inject_Z den)
                 == inject_Z (3 * m))%Q).
    { rewrite !inject_Z_mult. field. intro E. rewrite E in Hd'. discriminate. }
    rewrite E. rewrite <- Zle_Qle. lia.
Qed.


(** ** The tiling loops as a list of commands *)

Lemma emits_nil (c : Canvas) : emits [] c = c.
Proof. destruct c. unfold emits. simpl. rewrite app_nil_r. reflexivity. Qed.

Lemma emits_app (l1 l2 : list DrawOp) (c : Canvas) :
  emits l2 (emits l1 c) = emits (l1 ++ l2) c.
Proof. unfold emits. simpl. rewrite app_assoc. reflexivity. Qed.

Lemma steady_emits (w h : Z) (g : GState) (ops : list DrawOp) (c : Canvas) :
  steady w h g c -> steady w h g (emits ops c).
Proof. unfold steady. simpl. tauto. Qed.

Lemma foldM_emits (w h : Z) (g : GState) (body : Q -> Canvas -> option Canvas)
    (f : Q -> list DrawOp) :
  (forall x c, steady w h g c -> body x c = Some (emits (f x) c)) ->
  forall l c, steady w h g c -> foldM body l c = Some (emits (flat_map f l) c).
Proof.
  intros Hbody l. induction l as [|x l IH]; intros c Hc; simpl.
  - rewrite emits_nil. reflexivity.
  - rewrite (Hbody _ _ Hc). rewrite IH by (apply steady_emits; assumption).
    rewrite emits_app. reflexivity.
Qed.

Lemma flat_map_single {A B : Type} (f : A -> B) (l : list A) :
  flat_map (fun x => [f x]) l = map f l.
Proof. induction l as [|x l IH]; simpl; [|rewrite IH]; reflexivity. Qed.

(** With enough fuel the two loops end on their tests and have appended
    exactly the commands of [tileOps]. *)
Lemma tileLoops_emits (fuel : nat) (sp : Q) (draw : Q -> Q -> Canvas -> Canvas)
    (op : Q -> Q -> GState -> DrawOp) (c : Canvas) :
  (forall x y c0, draw x y c0 = emit (op x y (cv_state c0)) c0) ->
  (0 < sp)%Q -> 0 < cv_width c -> 0 < cv_height c ->
  (rounds (cv_width c) sp < fuel)%nat ->
  (rounds (cv_height c) sp < fuel)%nat ->
  tileLoops fuel sp draw c =
  Some (emits (tileOps (cv_width c) (cv_height c) sp
                 (fun x y => op x y (cv_state c))) c).
Proof.
  intros Hdraw Hsp Hw Hh Hfw Hfh. unfold tileLoops, tileOps.
  set (w := cv_width c) in *. set (h := cv_height c) in *.
  set (g := cv_state c).
  assert (Hc : steady w h g c) by (unfold steady; auto).
  destruct (rounds_spec w sp Hsp Hw) as [Hwin Hwout].
  destruct (rounds_spec h sp Hsp Hh) as [Hhin Hhout].
  assert (Hrow : forall y c1, steady w h g c1 ->
            for_loop fuel (inject_Z (- cv_width c1))
              (fun x c0 => Qltb x (inject_Z (cv_width c0 * 2)))
              (fun x => (x + sp)%Q)
              (fun x c2 => Some (draw x y c2)) c1 =
            Some (emits (map (fun x => op x y g)
                           (points (rounds w sp) (inject_Z (- w)) sp)) c1)).
  { intros y c1 Hc1. pose proof Hc1 as (E1 & _ & _). rewrite E1.
    rewrite (for_loop_unroll (steady w h g) _ _ (inject_Z (w * 2)) sp)
      with (n := rounds w sp); try assumption.
    - rewrite <- flat_map_single.
      apply (foldM_emits w h g); [|assumption].
      intros x c2 (_ & _ & E). rewrite Hdraw, E. reflexivity.
    - intros x s (E & _ & _). rewrite E. reflexivity.
    - intros x s s' Hs E. injection E as <-. rewrite Hdraw.
      apply steady_emits. assumption. }
  rewrite (for_loop_unroll (steady w h g) _ _ (inject_Z (h * 2)) sp)
    with (n := rounds h sp); try assumption.
  - apply (foldM_emits w h g); assumption.
  - intros x s (_ & E & _). rewrite E. reflexivity.
  - intros y s s' Hs E. rewrite (Hrow _ _ Hs) in E. injection E as <-.
    apply steady_emits. assumption.
Qed.

(** ** The compositing pass in closed form *)

Lemma composite_closed (fuel : nat) (d : Deps) (canvas : Canvas) :
  0 < img_width (d_image d) -> 0 < img_height (d_image d) ->
  0 < d_density d -> (Z.to_nat (3 * d_density d) < fuel)%nat ->
  composite fuel d canvas = Some (passResult d).
Proof.
  intros Hw Hh Hd Hfuel. unfold passResult.
  set (w := img_width (d_image d)) in *. set (h := img_height (d_image d)) in *.
  assert (Hsp : (0 < baseSpacing d)%Q).
  { apply baseSpacing_pos; [fold w h; lia|assumption]. }
  assert (Hrw : (rounds w (baseSpacing d) < fuel)%nat).
  { pose proof (rounds_le w (Z.max w h) (d_density d) Hw ltac:(lia) Hd).
    unfold baseSpacing. fold w h. lia. }
  assert (Hrh : (rounds h (baseSpacing d) < fuel)%nat).
  { pose proof (rounds_le h (Z.max w h) (d_density d) Hh ltac:(lia) Hd).
    unfold baseSpacing. fold w h. lia. }
  unfold composite. fold w h.
  set (c3 := setGlobalAlpha (d_opacity d) (rotateDeg (d_angle d)
               (save (drawImage (d_image d) 0 0 (setHeight h (setWidth w canvas)))))).
  assert (E3 : c3 = {| cv_width := w; cv_height := h;
                       cv_bitmap := [DrawImage (d_image d) 0 0 None defaultGState];
                       cv_state := setupState d; cv_stack := [defaultGState] |}).
  { unfold c3, setGlobalAlpha, setupState. simpl.
    destruct (Qle_bool 0 (d_opacity d) && Qle_bool (d_opacity d) 1); reflexivity. }
  change (spacing (drawImage (d_image d) 0 0 (setHeight h (setWidth w canvas)))
            (d_density d)) with (baseSpacing d).
  rewrite E3. unfold compositeBitmap, textOps, rasterOps, rasterState.
  assert (Hnz : (w =? 0) || (h =? 0) = false).
  { apply orb_false_iff. split; apply Z.eqb_neq; lia. }
  destruct (truthy (d_signature d)).
  - unfold drawTextWatermark.
    match goal with
    | |- context [tileLoops fuel _ _ ?c] =>
        assert (E4 : c = {| cv_width := w; cv_height := h;
                            cv_bitmap := [DrawImage (d_image d) 0 0 None defaultGState];
                            cv_state := textState d;
                            cv_stack := [defaultGState] |})
          by (unfold setFillStyle, textState; fold (textStyle d);
              destruct (validStyle (textStyle d)); reflexivity);
        rewrite E4
    end.
    rewrite (tileLoops_emits fuel _ _ (fun x y g => FillText (d_signature d) x y g));
      try assumption; try reflexivity.
    destruct (d_signatureImage d) as [si|].
    + unfold drawImageWatermark.
      rewrite (tileLoops_emits fuel _ _
                 (fun x y g => DrawImage si x y (Some (rasterSize d si)) g));
        try assumption; try reflexivity.
      unfold toDataURL, restore. simpl. fold w h. rewrite Hnz.
      reflexivity.
    + unfold toDataURL, restore. simpl. fold w h. rewrite Hnz.
      rewrite app_nil_r. reflexivity.
  - destruct (d_signatureImage d) as [si|].
    + unfold drawImageWatermark.
      rewrite (tileLoops_emits fuel _ _
                 (fun x y g => DrawImage si x y (Some (rasterSize d si)) g));
        try assumption; try reflexivity.
      unfold toDataURL, restore. simpl. fold w h. rewrite Hnz. reflexivity.
    + unfold toDataURL, restore. simpl. fold w h. rewrite Hnz. reflexivity.
Qed.

Lemma tileLoops_mono (fuel fuel' : nat) (sp : Q)
    (draw : Q -> Q -> Canvas -> Canvas) (c r : Canvas) :
  (fuel <= fuel')%nat ->
  tileLoops fuel sp draw c = Some r -> tileLoops fuel' sp draw c = Some r.
Proof.
  intros Hle. unfold tileLoops. apply for_loop_mono; [|assumption].
  intros y s r'. apply for_loop_mono; [|assumption]. auto.
Qed.

(** A pass that ends within some fuel ends the same way within more. *)
Lemma composite_mono (fuel fuel' : nat) (d : Deps) (canvas : Canvas)
    (r : Canvas * DataURL) :
  (fuel <= fuel')%nat ->
  composite fuel d canvas = Some r -> composite fuel' d canvas = Some r.
Proof.
  intros Hle. unfold composite.
  set (c := setGlobalAlpha _ _). set (sp := spacing _ _).
  destruct (truthy (d_signature d)).
  - unfold drawTextWatermark.
    destruct (tileLoops fuel sp _ _) as [c1|] eqn:E1; [|discriminate].
    rewrite (tileLoops_mono _ _ _ _ _ _ Hle E1).
    destruct (d_signatureImage d) as [si|]; [|auto].
    unfold drawImageWatermark.
    destruct (tileLoops fuel sp _ c1) as [c2|] eqn:E2; [|discriminate].
    rewrite (tileLoops_mono _ _ _ _ _ _ Hle E2). auto.
  - destruct (d_signatureImage d) as [si|]; [|auto].
    unfold drawImageWatermark.
    destruct (tileLoops fuel sp _ c) as [c2|] eqn:E2; [|discriminate].
    rewrite (tileLoops_mono _ _ _ _ _ _ Hle E2). auto.
Qed.

(** The pass starts by resetting the canvas, so nothing of the canvas it
    is handed survives. *)
Lemma composite_any_canvas (fuel : nat) (d : Deps) (canvas1 canvas2 : Canvas) :
  composite fuel d canvas1 = composite fuel d canvas2.
Proof. reflexivity. Qed.

(** ** The points of a loop and the commands of a pass *)


Lemma points_In (n : nat) (x0 sp x : Q) :
  In x (points n x0 sp) ->
  exists k, (k < n)%nat /\ (x == x0 + qnat k * sp)%Q.
Proof.
  revert x0. induction n as [|n IH]; intros x0 Hin; simpl in Hin; [contradiction|].
  destruct Hin as [<-|Hin].
  - exists O. split; [lia|]. rewrite qnat_0. ring.
  - destruct (IH _ Hin) as (k & Hk & E). exists (S k). split; [lia|].
    rewrite E, qnat_succ. ring.
Qed.

Lemma points_nth (n : nat) (x0 sp : Q) (k : nat) :
  (k < n)%nat ->
  exists x, In x (points n x0 sp) /\ (x == x0 + qnat k * sp)%Q.
Proof.
  revert x0 k. induction n as [|n IH]; intros x0 k Hk; [lia|].
  destruct k as [|k].
  - exists x0. split; [left; reflexivity|]. rewrite qnat_0. ring.
  - destruct (IH (x0 + sp)%Q k ltac:(lia)) as (x & Hin & E).
    exists x. split; [right; exact Hin|]. rewrite E, qnat_succ. ring.
Qed.

Lemma tileOps_In (w h : Z) (sp : Q) (op : Q -> Q -> DrawOp) (o : DrawOp) :
  In o (tileOps w h sp op) <->
  exists x y, In x (points (rounds w sp) (inject_Z (- w)) sp) /\
              In y (points (rounds h sp) (inject_Z (- h)) sp) /\ o = op x y.
Proof.
  unfold tileOps. rewrite in_flat_map. split.
  - intros (y & Hy & Ho). apply in_map_iff in Ho. destruct Ho as (x & E & Hx).
    exists x, y. auto.
  - intros (x & y & Hx & Hy & E). exists y. split; [assumption|].
    apply in_map_iff. exists x. auto.
Qed.


Lemma row_count (f : Q -> DrawOp) (l : list Q) :
  (forall x, isTile (f x) = true) ->
  List.length (filter isTile (map f l)) = List.length l.
Proof.
  intro Htile. induction l as [|x l IH]; simpl; [reflexivity|].
  rewrite Htile. simpl. rewrite IH. reflexivity.
Qed.


Lemma tileCount_app (l1 l2 : list DrawOp) :
  tileCount (l1 ++ l2) = (tileCount l1 + tileCount l2)%nat.
Proof. unfold tileCount. rewrite filter_app, length_app. reflexivity. Qed.


(** ** Properties of the compositing pass *)

(** C1. For a base image of positive width and height, any signature and
    any tiling parameters with density at least 1, the compositing pass
    ends and the image it returns has exactly the width and the height of
    the base image. *)
Theorem composite_keeps_base_dimensions (fuel : nat) (d : Deps) (canvas : Canvas) :
  0 < img_width (d_image d) -> 0 < img_height (d_image d) ->
  1 <= d_density d -> (Z.to_nat (3 * d_density d) < fuel)%nat ->
  exists canvas' url,
    composite fuel d canvas = Some (canvas', url) /\
    urlSize url = Some (img_width (d_image d), img_height (d_image d)) /\
    cv_width canvas' = img_width (d_image d) /\
    cv_height canvas' = img_height (d_image d).
Proof.
  intros Hw Hh Hd Hfuel.
  rewrite (composite_closed fuel d canvas Hw Hh ltac:(lia) Hfuel).
  eexists. eexists. split; [reflexivity|]. simpl. auto.
Qed.

Lemma composite_keeps_base_dimensions_witness :
  exists canvas' url,
    composite 10 janeDoe createCanvas = Some (canvas', url) /\
    urlSize url = Some (800, 600) /\
    cv_width canvas' = 800 /\ cv_height canvas' = 600.
Proof.
  apply (composite_keeps_base_dimensions 10 janeDoe createCanvas); scenario.
Defined.

(** C7. Compositing is a function of the base image, the signature and
    the parameters alone: two passes on the same inputs that end, on
    whatever canvas contents and drawing state they start from and with
    whatever fuel, leave the same canvas and return the same image. *)
Theorem composite_deterministic (fuel1 fuel2 : nat) (d : Deps)
    (canvas1 canvas2 : Canvas) (r1 r2 : Canvas * DataURL) :
  composite fuel1 d canvas1 = Some r1 ->
  composite fuel2 d canvas2 = Some r2 ->
  r1 = r2.
Proof.
  intros H1 H2.
  apply (composite_mono fuel1 (Nat.max fuel1 fuel2)) in H1; [|lia].
  apply (composite_mono fuel2 (Nat.max fuel1 fuel2)) in H2; [|lia].
  rewrite (composite_any_canvas _ d canvas1 canvas2) in H1. congruence.
Qed.

Lemma composite_deterministic_witness :
  composite 10 janeDoe createCanvas = Some (passResult janeDoe) /\
  composite 25 janeDoe usedCanvas = Some (passResult janeDoe) /\
  passResult janeDoe = passResult janeDoe.
Proof.
  assert (H1 : composite 10 janeDoe createCanvas = Some (passResult janeDoe))
    by (vm_compute; reflexivity).
  assert (H2 : composite 25 janeDoe usedCanvas = Some (passResult janeDoe))
    by (vm_compute; reflexivity).
  split; [exact H1|]. split; [exact H2|].
  exact (composite_deterministic 10 25 janeDoe createCanvas usedCanvas _ _ H1 H2).
Defined.

(** ** The effect without a signature *)

(** Without a text and without a raster signature the effect takes its
    second guard and changes nothing. *)
Lemma watermarkEffect_no_signature (st : State) :
  signature st = ""%string -> signatureImage st = None -> watermarkEffect st = st.
Proof.
  intros Hs Hi. unfold watermarkEffect. rewrite Hs, Hi. simpl.
  destruct (image st); [destruct (canvasRef st)|]; reflexivity.
Qed.

(** C4, as the code has it. For every base image and every tiling
    parameters, when no signature is supplied (the text is empty and there
    is no raster signature) the effect returns at its guard without error:
    the compositor is not invoked, no callback is scheduled, and the stored
    result is not set to the base image but keeps the value it had. *)
Theorem no_signature_is_not_composited (st : State) :
  signature st = ""%string -> signatureImage st = None ->
  watermarkEffect st = st /\
  watermarkedImage (watermarkEffect st) = watermarkedImage st /\
  timers (watermarkEffect st) = timers st.
Proof.
  intros Hs Hi. rewrite (watermarkEffect_no_signature st Hs Hi). auto.
Qed.

Lemma no_signature_is_not_composited_witness :
  watermarkEffect (setImage (Some artwork) initialState)
  = setImage (Some artwork) initialState /\
  watermarkedImage (watermarkEffect (setImage (Some artwork) initialState))
  = watermarkedImage (setImage (Some artwork) initialState) /\
  timers (watermarkEffect (setImage (Some artwork) initialState))
  = timers (setImage (Some artwork) initialState).
Proof.
  apply (no_signature_is_not_composited (setImage (Some artwork) initialState));
    reflexivity.
Defined.

(** C4, as stated, fails: with the artwork uploaded and no signature, the
    stored result is not the base image. It is [null], whatever pending
    callback is allowed to run. *)
Lemma no_signature_result_is_not_the_base :
  ~ (forall (st : State) (base : Image),
       image st = Some base -> signature st = ""%string -> signatureImage st = None ->
       watermarkedImage (watermarkEffect st)
       = Some (toDataURL (drawImage base 0 0
                 (setHeight (img_height base) (setWidth (img_width base)
                    createCanvas))))) /\
  watermarkedImage (stateAfter [UploadImage artwork; CallbackRuns]) = None.
Proof.
  split; [|reflexivity].
  intro H.
  specialize (H (setImage (Some artwork) initialState) artwork
                eq_refl eq_refl eq_refl).
  discriminate H.
Qed.








(** ** The two signature kinds *)





(** ** The download path *)

(** C5. When the steganographic encoding of the stored result throws, the
    download delivers the stored result itself, unencoded and unchanged,
    and no error surfaces; an encoder that always fails is one such case. *)
Theorem steganography_falls_back_to_composite
    (decodeFile : list Z -> option (Z * Z))
    (getImageData : Canvas -> Z -> Z -> Z -> Z -> option ImageData)
    (encode : string -> ImageData -> option ImageData) (fullYear : string)
    (st : State) (url : DataURL) (img : Image) :
  watermarkedImage st = Some url ->
  loadImage decodeFile url = Some img ->
  (forall imageData,
     getImageData
       (drawImage img 0 0
          (setHeight (img_height img) (setWidth (img_width img) createCanvas)))
       0 0 (img_width img) (img_height img) = Some imageData ->
     encode (hiddenMessage fullYear) imageData = None) ->
  applySteganography decodeFile getImageData encode fullYear url = Resolved url /\
  handleVerifiedDownload decodeFile getImageData encode fullYear st = Resolved url.
Proof.
  intros Hst Hload Hfail.
  assert (Happly : applySteganography decodeFile getImageData encode fullYear url
                   = Resolved url).
  { unfold applySteganography. rewrite Hload. simpl.
    destruct (getImageData _ 0 0 (img_width img) (img_height img))
      as [imageData|] eqn:Hread; [|reflexivity].
    rewrite (Hfail _ eq_refl). reflexivity. }
  split; [exact Happly|].
  unfold handleVerifiedDownload. rewrite Hst. exact Happly.
Qed.

Lemma steganography_falls_back_to_composite_witness :
  resultOf signedState = snd (passResult janeDoe) /\
  applySteganography noFile blankRead failingEncode "2025" (resultOf signedState)
  = Resolved (resultOf signedState) /\
  handleVerifiedDownload noFile blankRead failingEncode "2025" signedState
  = Resolved (resultOf signedState).
Proof.
  split; [vm_compute; reflexivity|].
  apply (steganography_falls_back_to_composite noFile blankRead failingEncode
           "2025" signedState (resultOf signedState)
           (mkImage 800 600 (resultOf signedState))).
  - vm_compute; reflexivity.
  - vm_compute; reflexivity.
  - intros imageData _. reflexivity.
Defined.


(** ** Raster tiles *)




(** ** Spacing, density and angle *)





(** ** The component between events *)

(** A pass on well-formed inputs that ends, ends on [passResult]. *)
Lemma composite_result (fuel : nat) (d : Deps) (canvas : Canvas)
    (r : Canvas * DataURL) :
  0 < img_width (d_image d) -> 0 < img_height (d_image d) -> 1 <= d_density d ->
  composite fuel d canvas = Some r -> r = passResult d.
Proof.
  intros Hw Hh Hd Hrun.
  apply (composite_mono fuel (Nat.max fuel (S (Z.to_nat (3 * d_density d)))))
    in Hrun; [|lia].
  rewrite composite_closed in Hrun; [congruence|assumption|assumption|lia|lia].
Qed.


Lemma settled_initial : settled initialState.
Proof.
  unfold settled, initialState. simpl. repeat split; try lia; try discriminate;
    auto.
Qed.

(** The effect keeps the component settled: what it schedules has a
    signature, a loaded base image and a density from the slider. *)
Lemma settled_watermarkEffect (st : State) :
  settled st -> settled (watermarkEffect st).
Proof.
  intros (Hd & Hc & Hi & Ht & Hr & Hp). unfold watermarkEffect.
  destruct (image st) as [img|] eqn:Eimg;
    [|unfold settled; rewrite Eimg; auto 10].
  destruct (canvasRef st) as [cv|] eqn:Ecv; [|congruence].
  destruct (negb (truthy (signature st)) &&
            match signatureImage st with Some _ => false | None => true end)
    eqn:Eg.
  - unfold settled. rewrite Eimg, Ecv. auto 10.
  - unfold settled. simpl. rewrite Eimg, Ecv.
    split; [exact Hd|]. split; [exact Hc|]. split; [exact Hi|].
    split; [|split; [exact Hr|]].
    + apply Forall_app. split; [assumption|]. constructor; [|constructor].
      destruct (Hi img eq_refl) as [Hw Hh].
      unfold wfDeps, hasSignature. simpl. repeat split; try lia; try assumption.
      destruct (truthy (signature st)); [reflexivity|].
      destruct (signatureImage st); [reflexivity|discriminate].
    + intro E. apply app_eq_nil in E. destruct E as [_ E]. discriminate.
Qed.

(** A state setter that leaves the canvas, the pending callbacks and the
    flag alone, keeps or clears the result, and sets a density from the
    slider and a loaded image, keeps the component settled. *)
Lemma settled_update (st st2 : State) :
  settled st ->
  1 <= density st2 <= 5 ->
  (forall img, image st2 = Some img -> 0 < img_width img /\ 0 < img_height img) ->
  canvasRef st2 = canvasRef st -> timers st2 = timers st ->
  isProcessing st2 = isProcessing st ->
  (watermarkedImage st2 = watermarkedImage st \/ watermarkedImage st2 = None) ->
  settled st2.
Proof.
  intros (Hd & Hc & Hi & Ht & Hr & Hp) Hd2 Hi2 Ec Et Ep Ew.
  unfold settled. rewrite Ec, Et, Ep.
  split; [exact Hd2|]. split; [exact Hc|]. split; [exact Hi2|].
  split; [exact Ht|]. split; [|exact Hp].
  intros url Hu. destruct Ew as [Ew|Ew]; rewrite Ew in Hu; [auto|discriminate].
Qed.

Lemma settled_step (fuel : nat) (e : Event) (st st' : State) :
  settled st -> wfEvent e = true -> step fuel e st = Some st' -> settled st'.
Proof.
  intros Hst He Hstep. pose proof Hst as (Hd & Hc & Hi & Ht & Hr & Hp).
  destruct e as [v|si| |img|v|v|v|v|v| | ]; simpl in He, Hstep.
  - injection Hstep as <-. apply settled_watermarkEffect.
    apply (settled_update st); simpl; auto.
  - injection Hstep as <-. apply settled_watermarkEffect.
    apply (settled_update st); simpl; auto.
  - injection Hstep as <-. apply settled_watermarkEffect.
    apply (settled_update st); simpl; auto.
  - injection Hstep as <-. apply settled_watermarkEffect.
    apply andb_true_iff in He. destruct He as [Hw Hh].
    apply Z.ltb_lt in Hw, Hh.
    apply (settled_update st); simpl; auto.
    intros i E. injection E as <-. lia.
  - injection Hstep as <-. apply settled_watermarkEffect.
    apply (settled_update st); simpl; auto.
  - injection Hstep as <-. apply settled_watermarkEffect.
    apply (settled_update st); simpl; auto.
  - injection Hstep as <-. apply settled_watermarkEffect.
    apply andb_true_iff in He. destruct He as [H1 H5].
    apply Z.leb_le in H1, H5.
    apply (settled_update st); simpl; auto.
  - destruct (signatureImage st); injection Hstep as <-;
      apply settled_watermarkEffect; apply (settled_update st); simpl; auto.
  - injection Hstep as <-. apply settled_watermarkEffect.
    apply (settled_update st); simpl; auto.
  - injection Hstep as <-. apply settled_watermarkEffect.
    apply (settled_update st); simpl; auto; try lia. discriminate.
  - unfold timerFires in Hstep.
    destruct (timers st) as [|d rest] eqn:Et;
      [injection Hstep as <-; exact Hst|].
    destruct (canvasRef st) as [cv|] eqn:Ecv; [|congruence].
    destruct (composite fuel d cv) as [[cv' url]|] eqn:Ec; [|discriminate].
    injection Hstep as <-.
    inversion Ht as [|d0 rest0 Hwd Hrest]; subst.
    pose proof Hwd as (Hw & Hh & Hden & Hs).
    apply composite_result in Ec; try assumption; try lia.
    assert (Eu : url = snd (passResult d)) by (rewrite <- Ec; reflexivity).
    unfold settled. simpl.
    split; [exact Hd|]. split; [discriminate|]. split; [exact Hi|].
    split; [exact Hrest|]. split; [|reflexivity].
    intros u E. injection E as <-. exists d. split; [assumption|exact Eu].
Qed.

Lemma settled_run (fuel : nat) (es : list Event) (st st' : State) :
  settled st -> forallb wfEvent es = true -> run fuel es st = Some st' ->
  settled st'.
Proof.
  revert st. induction es as [|e es IH]; intros st Hst Hes Hrun; simpl in *.
  - injection Hrun as <-. exact Hst.
  - apply andb_true_iff in Hes. destruct Hes as [He Hes].
    destruct (step fuel e st) as [st1|] eqn:Hstep; [|discriminate].
    apply (IH st1); [|assumption|assumption].
    apply (settled_step fuel e st st1); assumption.
Qed.



(** X2. Whenever no compositing callback is pending, the processing flag
    is off: the spinner never outlives the last pass. *)
Theorem no_pending_pass_no_spinner (fuel : nat) (es : list Event) (st : State) :
  run fuel es initialState = Some st ->
  forallb wfEvent es = true ->
  timers st = [] ->
  isProcessing st = false.
Proof.
  intros Hrun Hes Ht.
  destruct (settled_run fuel es initialState st settled_initial Hes Hrun)
    as (_ & _ & _ & _ & _ & Hp).
  exact (Hp Ht).
Qed.

Lemma no_pending_pass_no_spinner_witness : isProcessing signedState = false.
Proof.
  apply (no_pending_pass_no_spinner 10
           [UploadImage artwork; TypeSignature "Jane Doe"%string; CallbackRuns]);
    vm_compute; reflexivity.
Defined.



(** ** More on the compositing pass *)

(** X5. Opacity and angle never reach the base image, and the pass
    cleans up after itself: the base image is the first command, drawn at
    the origin unrotated and at full alpha, every raster tile is drawn
    rotated by [angle] at alpha [opacity], and the context is left in its
    default state with an empty stack, whatever state the canvas came in. *)
Theorem base_image_is_drawn_plain (fuel : nat) (d : Deps) (canvas : Canvas) :
  0 < img_width (d_image d) -> 0 < img_height (d_image d) ->
  1 <= d_density d -> (Z.to_nat (3 * d_density d) < fuel)%nat ->
  (0 <= d_opacity d)%Q -> (d_opacity d <= 1)%Q ->
  exists canvas' url rest,
    composite fuel d canvas = Some (canvas', url) /\
    urlBitmap url = DrawImage (d_image d) 0 0 None defaultGState :: rest /\
    cv_state canvas' = defaultGState /\ cv_stack canvas' = [] /\
    (forall i x y sz g,
       In (DrawImage i x y (Some sz) g) rest ->
       gs_rotation g = d_angle d /\ gs_globalAlpha g = d_opacity d) /\
    (forall t x y g,
       In (FillText t x y g) rest ->
       gs_rotation g = d_angle d /\ gs_globalAlpha g = d_opacity d).
Proof.
  intros Hw Hh Hd Hfuel Ho0 Ho1.
  rewrite (composite_closed fuel d canvas Hw Hh ltac:(lia) Hfuel).
  exists (fst (passResult d)), (snd (passResult d)), (textOps d ++ rasterOps d).
  split; [reflexivity|]. split; [reflexivity|]. split; [reflexivity|].
  split; [reflexivity|].
  assert (Ho : Qle_bool 0 (d_opacity d) && Qle_bool (d_opacity d) 1 = true).
  { apply andb_true_iff. split; apply Qle_bool_iff; assumption. }
  assert (Hsetup : gs_rotation (setupState d) = d_angle d /\
                   gs_globalAlpha (setupState d) = d_opacity d).
  { unfold setupState. simpl. rewrite Ho. split; reflexivity. }
  assert (Htext : gs_rotation (textState d) = d_angle d /\
                  gs_globalAlpha (textState d) = d_opacity d)
    by exact Hsetup.
  assert (Hraster : gs_rotation (rasterState d) = d_angle d /\
                    gs_globalAlpha (rasterState d) = d_opacity d).
  { unfold rasterState. destruct (truthy (d_signature d)); assumption. }
  split.
  - intros i x y sz g Hin. apply in_app_or in Hin. destruct Hin as [Hin|Hin].
    + unfold textOps in Hin. destruct (truthy (d_signature d)); [|contradiction].
      apply tileOps_In in Hin. destruct Hin as (xx & yy & _ & _ & E).
      discriminate.
    + unfold rasterOps in Hin. destruct (d_signatureImage d); [|contradiction].
      apply tileOps_In in Hin. destruct Hin as (xx & yy & _ & _ & E).
      injection E as _ _ _ _ ->. exact Hraster.
  - intros t x y g Hin. apply in_app_or in Hin. destruct Hin as [Hin|Hin].
    + unfold textOps in Hin. destruct (truthy (d_signature d)); [|contradiction].
      apply tileOps_In in Hin. destruct Hin as (xx & yy & _ & _ & E).
      injection E as _ _ _ ->. exact Htext.
    + unfold rasterOps in Hin. destruct (d_signatureImage d); [|contradiction].
      apply tileOps_In in Hin. destruct Hin as (xx & yy & _ & _ & E).
      discriminate.
Qed.

Lemma base_image_is_drawn_plain_witness :
  exists canvas' url rest,
    composite 10 bothKinds usedCanvas = Some (canvas', url) /\
    urlBitmap url = DrawImage artwork 0 0 None defaultGState :: rest /\
    cv_state canvas' = defaultGState /\ cv_stack canvas' = [] /\
    (forall i x y sz g,
       In (DrawImage i x y (Some sz) g) rest ->
       gs_rotation g = 45 /\ gs_globalAlpha g = 0.5%Q) /\
    (forall t x y g,
       In (FillText t x y g) rest ->
       gs_rotation g = 45 /\ gs_globalAlpha g = 0.5%Q).
Proof.
  apply (base_image_is_drawn_plain 10 bothKinds usedCanvas);
    try scenario; vm_compute; discriminate.
Defined.

(** ** The text colour *)

Lemma hexDigit_range (c : ascii) (v : Z) : hexDigit c = Some v -> 0 <= v <= 15.
Proof.
  unfold hexDigit. intro H.
  repeat match type of H with
         | (if ?b then _ else _) = _ =>
             let E := fresh "E" in
             destruct b eqn:E;
             [apply andb_true_iff in E; destruct E as [E1 E2];
              apply Z.leb_le in E1, E2; injection H as <-; lia|]
         end.
  discriminate.
Qed.

(** Two hexadecimal digits parse to [16 * high + low]. *)
Lemma parseInt16_two_digits (c1 c2 : ascii) (hi lo : Z) :
  hexDigit c1 = Some hi -> hexDigit c2 = Some lo ->
  parseInt16 (String c1 (String c2 "")) = Some (hi * 16 + lo).
Proof.
  intros H1 H2.
  assert (Hh : hexDigits (String c1 (String c2 "")) None = Some (hi * 16 + lo)).
  { simpl. rewrite H1, H2. reflexivity. }
  destruct c1 as [[|] [|] [|] [|] [|] [|] [|] [|]];
    try (vm_compute in H1; discriminate H1);
    try (unfold parseInt16; cbn [trimStart isWhiteSpace]; exact Hh).
  (* the digit 0: the next character could have opened a 0x prefix *)
  destruct c2 as [[|] [|] [|] [|] [|] [|] [|] [|]];
    try (vm_compute in H2; discriminate H2);
    unfold parseInt16; cbn [trimStart isWhiteSpace]; exact Hh.
Qed.

(** X6. For a colour [#rrggbb] of six hexadecimal digits the text is
    filled with [rgba(r, g, b, opacity)], each component the value of its
    two digits and between 0 and 255; as the tiles are also drawn under
    [globalAlpha = opacity], the opacity applies to the text twice. *)
Theorem text_colour_is_parsed (fuel : nat) (d : Deps) (canvas : Canvas)
    (c1 c2 c3 c4 c5 c6 : ascii) (tail : string) (r1 r2 g1 g2 b1 b2 : Z) :
  0 < img_width (d_image d) -> 0 < img_height (d_image d) ->
  1 <= d_density d -> (Z.to_nat (3 * d_density d) < fuel)%nat ->
  (0 <= d_opacity d)%Q -> (d_opacity d <= 1)%Q ->
  d_textColor d
  = String "#" (String c1 (String c2 (String c3 (String c4 (String c5
      (String c6 tail)))))) ->
  hexDigit c1 = Some r1 -> hexDigit c2 = Some r2 ->
  hexDigit c3 = Some g1 -> hexDigit c4 = Some g2 ->
  hexDigit c5 = Some b1 -> hexDigit c6 = Some b2 ->
  exists canvas' url,
    composite fuel d canvas = Some (canvas', url) /\
    0 <= r1 * 16 + r2 <= 255 /\ 0 <= g1 * 16 + g2 <= 255 /\
    0 <= b1 * 16 + b2 <= 255 /\
    forall t x y g,
      In (FillText t x y g) (urlBitmap url) ->
      gs_fillStyle g = {| style_r := Some (r1 * 16 + r2);
                          style_g := Some (g1 * 16 + g2);
                          style_b := Some (b1 * 16 + b2);
                          style_a := d_opacity d |} /\
      gs_globalAlpha g = d_opacity d /\
      gs_font g = {| font_px := d_fontSize d; font_family := "Arial" |}.
Proof.
  intros Hw Hh Hd Hfuel Ho0 Ho1 Hc H1 H2 H3 H4 H5 H6.
  rewrite (composite_closed fuel d canvas Hw Hh ltac:(lia) Hfuel).
  eexists. eexists. split; [reflexivity|].
  pose proof (hexDigit_range _ _ H1). pose proof (hexDigit_range _ _ H2).
  pose proof (hexDigit_range _ _ H3). pose proof (hexDigit_range _ _ H4).
  pose proof (hexDigit_range _ _ H5). pose proof (hexDigit_range _ _ H6).
  split; [lia|]. split; [lia|]. split; [lia|].
  assert (Hstyle : textStyle d = {| style_r := Some (r1 * 16 + r2);
                                    style_g := Some (g1 * 16 + g2);
                                    style_b := Some (b1 * 16 + b2);
                                    style_a := d_opacity d |}).
  { unfold textStyle, substr. rewrite Hc. cbn [substring].
    replace (substring 0 0 tail) with EmptyString by (destruct tail; reflexivity).
    rewrite (parseInt16_two_digits c1 c2 r1 r2 H1 H2).
    rewrite (parseInt16_two_digits c3 c4 g1 g2 H3 H4).
    rewrite (parseInt16_two_digits c5 c6 b1 b2 H5 H6). reflexivity. }
  assert (Ho : Qle_bool 0 (d_opacity d) && Qle_bool (d_opacity d) 1 = true).
  { apply andb_true_iff. split; apply Qle_bool_iff; assumption. }
  intros t x y g Hin. unfold passResult, urlBitmap, snd in Hin.
  unfold compositeBitmap in Hin. destruct Hin as [Hin|Hin]; [discriminate|].
  apply in_app_or in Hin. destruct Hin as [Hin|Hin].
  - unfold textOps in Hin. destruct (truthy (d_signature d)); [|contradiction].
    apply tileOps_In in Hin. destruct Hin as (xx & yy & _ & _ & E).
    injection E as _ _ _ ->. unfold textState. cbn [gs_fillStyle gs_globalAlpha gs_font].
    rewrite Hstyle. unfold setupState. cbn [gs_globalAlpha validStyle style_r
      style_g style_b]. rewrite Ho. auto.
  - unfold rasterOps in Hin. destruct (d_signatureImage d); [|contradiction].
    apply tileOps_In in Hin. destruct Hin as (xx & yy & _ & _ & E).
    discriminate.
Qed.

Lemma text_colour_is_parsed_witness :
  exists canvas' url,
    composite 10 (withAngle 45 janeDoe) createCanvas = Some (canvas', url) /\
    0 <= 0 * 16 + 0 <= 255 /\ 0 <= 0 * 16 + 0 <= 255 /\
    0 <= 0 * 16 + 0 <= 255 /\
    forall t x y g,
      In (FillText t x y g) (urlBitmap url) ->
      gs_fillStyle g = {| style_r := Some (0 * 16 + 0);
                          style_g := Some (0 * 16 + 0);
                          style_b := Some (0 * 16 + 0);
                          style_a := 0.5%Q |} /\
      gs_globalAlpha g = 0.5%Q /\
      gs_font g = {| font_px := 20; font_family := "Arial" |}.
Proof.
  apply (text_colour_is_parsed 10 (withAngle 45 janeDoe) createCanvas
           "0" "0" "0" "0" "0" "0" ""%string 0 0 0 0 0 0);
    try scenario; vm_compute; discriminate.
Defined.

(** ** More on the download path *)

(** X7. What is downloaded for the result of a pass always arrives and
    always has the size of the base image: whether the read-back or the
    encoder succeed or throw, the promise resolves, with a PNG of the
    base width and height. *)
Theorem export_keeps_base_dimensions
    (decodeFile : list Z -> option (Z * Z))
    (getImageData : Canvas -> Z -> Z -> Z -> Z -> option ImageData)
    (encode : string -> ImageData -> option ImageData) (fullYear : string)
    (fuel : nat) (d : Deps) (canvas canvas' : Canvas) (url : DataURL) :
  0 < img_width (d_image d) -> 0 < img_height (d_image d) ->
  1 <= d_density d ->
  composite fuel d canvas = Some (canvas', url) ->
  exists out,
    applySteganography decodeFile getImageData encode fullYear url
    = Resolved out /\
    urlSize out = Some (img_width (d_image d), img_height (d_image d)).
Proof.
  intros Hw Hh Hd Hrun.
  apply composite_result in Hrun; try assumption.
  injection Hrun as _ ->.
  unfold applySteganography, loadImage. cbn [img_width img_height].
  destruct (getImageData _ 0 0 _ _) as [imageData|]; [|eexists; split; reflexivity].
  destruct (encode _ imageData) as [encoded|]; [|eexists; split; reflexivity].
  eexists. split; [reflexivity|].
  unfold toDataURL. cbn [putImageData emit drawImage setHeight setWidth cv_width
    cv_height cv_bitmap].
  assert (Hnz : (img_width (d_image d) =? 0) || (img_height (d_image d) =? 0)
                = false).
  { apply orb_false_iff. split; apply Z.eqb_neq; lia. }
  rewrite Hnz. reflexivity.
Qed.

Lemma export_keeps_base_dimensions_witness :
  exists out,
    applySteganography noFile blankRead
      (fun _ data => Some data) "2025" (snd (passResult janeDoe))
    = Resolved out /\
    urlSize out = Some (800, 600).
Proof.
  apply (export_keeps_base_dimensions noFile blankRead (fun _ data => Some data)
           "2025" 10 janeDoe createCanvas (fst (passResult janeDoe)));
    scenario.
Defined.

(** X8. The download never settles exactly when the stored URL does not
    load as an image, as for the empty URL a canvas without pixels gives;
    the encoder and the read-back have no part in that. *)
Theorem export_hangs_iff_image_does_not_load
    (decodeFile : list Z -> option (Z * Z))
    (getImageData : Canvas -> Z -> Z -> Z -> Z -> option ImageData)
    (encode : string -> ImageData -> option ImageData) (fullYear : string)
    (url : DataURL) :
  (applySteganography decodeFile getImageData encode fullYear url = NeverSettles
   <-> loadImage decodeFile url = None) /\
  applySteganography decodeFile getImageData encode fullYear
    (toDataURL (setWidth 0 createCanvas)) = NeverSettles.
Proof.
  split; [|reflexivity].
  unfold applySteganography.
  destruct (loadImage decodeFile url) as [img|].
  - split; [|discriminate].
    destruct (getImageData _ 0 0 _ _) as [imageData|]; [|discriminate].
    destruct (encode _ imageData); discriminate.
  - split; reflexivity.
Qed.

(** ** Uploads *)

Lemma prefix_nil (s : string) : prefix "" s = true.
Proof. destruct s; reflexivity. Qed.

Lemma prefix_app (a b s : string) :
  prefix (a ++ b) s = true -> prefix a s = true.
Proof.
  revert s. induction a as [|c a IH]; intros s H; [apply prefix_nil|].
  destruct s as [|c' s]; simpl in *; [discriminate|].
  destruct (ascii_dec c c'); [apply IH; assumption|discriminate].
Qed.

Lemma includes_app (a b s : string) :
  includes (a ++ b) s = true -> includes a s = true.
Proof.
  induction s as [|c s IH]; cbn [includes]; intro H.
  - apply (prefix_app a b). assumption.
  - apply orb_true_iff in H. apply orb_true_iff. destruct H as [H|H].
    + left. apply (prefix_app a b). assumption.
    + right. apply IH. assumption.
Qed.

Lemma prefix_self_app (p b : string) : prefix p (p ++ b) = true.
Proof.
  induction p as [|c p IH]; [apply prefix_nil|]. simpl.
  destruct (ascii_dec c c); [assumption|congruence].
Qed.

Lemma includes_prefix (p s : string) : prefix p s = true -> includes p s = true.
Proof.
  intro H. destruct s; cbn [includes]; [assumption|]. rewrite H. reflexivity.
Qed.

Lemma includes_inside (p a b : string) : includes p (a ++ p ++ b) = true.
Proof.
  induction a as [|c a IH].
  - cbn [append]. apply includes_prefix. apply prefix_self_app.
  - cbn [append includes]. rewrite IH. apply orb_true_r.
Qed.

(** X9. Every file the signature upload accepts by its type, the base
    image upload and the drop area accept too; and the base image check is
    not anchored: a type with ["image"] anywhere in it passes. *)
Theorem signature_types_are_image_types (file : File) (img : Image) (st : State)
    (a : UploadArea) :
  includes "image/png" (file_type file) = true ->
  file_decoded file = Some img ->
  handleImageUpload [file] st
  = (watermarkEffect (setImage (Some img) st),
     Some {| notice_message := "imageUploaded"; notice_type := "success" |}) /\
  handleDrop [file] a
  = ({| area_state := fst (handleImageUpload [file] (area_state a));
        isDragging := false |},
     snd (handleImageUpload [file] (area_state a))) /\
  forall (before rest : string) (decoded : option Image),
    snd (handleDrop [{| file_type := before ++ "image" ++ rest;
                        file_decoded := decoded |}] a)
    <> Some {| notice_message := "invalidImage"; notice_type := "error" |}.
Proof.
  intros Ht Hd.
  assert (Hi : includes "image" (file_type file) = true)
    by (apply (includes_app "image" "/png"); exact Ht).
  unfold handleImageUpload, handleDrop. rewrite Hi, Hd.
  split; [reflexivity|]. split; [reflexivity|].
  intros before rest decoded. cbn [file_type file_decoded].
  rewrite includes_inside. destruct decoded; simpl; discriminate.
Qed.

Lemma signature_types_are_image_types_witness :
  handleImageUpload [{| file_type := "image/png"; file_decoded := Some artwork |}]
    initialState
  = (watermarkEffect (setImage (Some artwork) initialState),
     Some {| notice_message := "imageUploaded"; notice_type := "success" |}) /\
  handleDrop [{| file_type := "image/png"; file_decoded := Some artwork |}]
    {| area_state := initialState; isDragging := true |}
  = ({| area_state :=
          fst (handleImageUpload [{| file_type := "image/png";
                                     file_decoded := Some artwork |}]
                 initialState);
        isDragging := false |},
     snd (handleImageUpload [{| file_type := "image/png";
                                file_decoded := Some artwork |}] initialState)) /\
  forall (before rest : string) (decoded : option Image),
    snd (handleDrop [{| file_type := before ++ "image" ++ rest;
                        file_decoded := decoded |}]
           {| area_state := initialState; isDragging := true |})
    <> Some {| notice_message := "invalidImage"; notice_type := "error" |}.
Proof.
  apply (signature_types_are_image_types
           {| file_type := "image/png"; file_decoded := Some artwork |}
           artwork initialState
           {| area_state := initialState; isDragging := true |}); reflexivity.
Defined.

(** X10. A drop always ends the highlight of the drop area, whatever was
    dropped and also right after a drag-over, and otherwise handles its
    first file as the picker does: the component is left as
    [handleImageUpload] leaves it, and an accepted file that decodes acts
    as the upload event of the component. On a file of another type the
    picker changes nothing and says nothing, while the drop clears the
    highlight and reports the file. *)
Theorem drop_ends_highlight_and_uploads_like_picker (files : list File)
    (a : UploadArea) :
  isDragging (fst (handleDrop files a)) = false /\
  handleDrop files (handleDragOver a) = handleDrop files a /\
  area_state (fst (handleDrop files a))
  = fst (handleImageUpload files (area_state a)) /\
  (forall file rest img fuel,
     files = file :: rest ->
     includes "image" (file_type file) = true ->
     file_decoded file = Some img ->
     Some (area_state (fst (handleDrop files a)))
     = step fuel (UploadImage img) (area_state a) /\
     snd (handleDrop files a) = snd (handleImageUpload files (area_state a))) /\
  (forall file rest,
     files = file :: rest ->
     includes "image" (file_type file) = false ->
     handleImageUpload files (area_state a) = (area_state a, None) /\
     handleDrop files a
     = ({| area_state := area_state a; isDragging := false |},
        Some {| notice_message := "invalidImage"; notice_type := "error" |})).
Proof.
  split; [|split; [|split; [|split]]].
  - destruct files as [|file rest]; [reflexivity|]. cbn [handleDrop].
    destruct (includes "image" (file_type file)); [|reflexivity].
    destruct (file_decoded file); reflexivity.
  - reflexivity.
  - destruct files as [|file rest]; [reflexivity|].
    cbn [handleDrop handleImageUpload].
    destruct (includes "image" (file_type file)); [|reflexivity].
    destruct (file_decoded file); reflexivity.
  - intros file rest img fuel -> Ht Hd. cbn [handleDrop handleImageUpload].
    rewrite Ht, Hd. split; reflexivity.
  - intros file rest -> Ht. cbn [handleDrop handleImageUpload]. rewrite Ht.
    split; reflexivity.
Qed.

Lemma drop_ends_highlight_and_uploads_like_picker_witness :
  handleImageUpload [{| file_type := "text/plain"; file_decoded := None |}]
    initialState = (initialState, None) /\
  handleDrop [{| file_type := "text/plain"; file_decoded := None |}]
    {| area_state := initialState; isDragging := true |}
  = ({| area_state := initialState; isDragging := false |},
     Some {| notice_message := "invalidImage"; notice_type := "error" |}).
Proof.
  apply (proj2 (proj2 (proj2 (proj2
           (drop_ends_highlight_and_uploads_like_picker
              [{| file_type := "text/plain"; file_decoded := None |}]
              {| area_state := initialState; isDragging := true |}))))
           {| file_type := "text/plain"; file_decoded := None |} []);
    reflexivity.
Defined.

(** X11. A signature file whose type does not contain ["image/png"] is
    refused with an error notice and nothing changes; an accepted one of
    positive size is stored re-encoded through a canvas, with the width
    and the height of the uploaded picture, and the effect runs as for
    the component's signature upload event. *)
Theorem signature_upload_keeps_dimensions (file : File) (rest : list File)
    (st : State) :
  (includes "image/png" (file_type file) = false ->
   handleSignatureImageUpload (file :: rest) st
   = (st, Some {| notice_message := "invalidSignatureImage";
                  notice_type := "error" |})) /\
  (forall img,
     includes "image/png" (file_type file) = true ->
     file_decoded file = Some img ->
     0 < img_width img -> 0 < img_height img ->
     exists processedImg,
       handleSignatureImageUpload (file :: rest) st
       = (watermarkEffect (setSignatureImage (Some processedImg) st),
          Some {| notice_message := "signatureImageUploaded";
                  notice_type := "success" |}) /\
       img_width processedImg = img_width img /\
       img_height processedImg = img_height img /\
       urlBitmap (img_src processedImg) = [DrawImage img 0 0 None defaultGState]).
Proof.
  split.
  - intro Ht. simpl. rewrite Ht. reflexivity.
  - intros img Ht Hd Hw Hh. simpl. rewrite Ht, Hd. simpl.
    unfold processSignature, toDataURL. simpl.
    assert (Hnz : (img_width img =? 0) || (img_height img =? 0) = false).
    { apply orb_false_iff. split; apply Z.eqb_neq; lia. }
    rewrite Hnz. simpl. eexists. split; [reflexivity|]. simpl. auto.
Qed.

Lemma signature_upload_keeps_dimensions_witness :
  exists processedImg,
    handleSignatureImageUpload
      [{| file_type := "image/png"; file_decoded := Some signaturePng |}]
      initialState
    = (watermarkEffect (setSignatureImage (Some processedImg) initialState),
       Some {| notice_message := "signatureImageUploaded";
               notice_type := "success" |}) /\
    img_width processedImg = 200 /\ img_height processedImg = 100 /\
    urlBitmap (img_src processedImg)
    = [DrawImage signaturePng 0 0 None defaultGState].
Proof.
  apply (proj2 (signature_upload_keeps_dimensions
                  {| file_type := "image/png"; file_decoded := Some signaturePng |}
                  [] initialState) signaturePng); scenario.
Defined.

(** ** The generated text *)

Lemma string_length_app (a b : string) :
  String.length (a ++ b) = (String.length a + String.length b)%nat.
Proof. induction a as [|c a IH]; simpl; [|rewrite IH]; reflexivity. Qed.

Lemma list_ascii_app (a b : string) :
  list_ascii_of_string (a ++ b)
  = (list_ascii_of_string a ++ list_ascii_of_string b)%list.
Proof. induction a as [|c a IH]; simpl; [|rewrite IH]; reflexivity. Qed.

Lemma toUpperCase_app (a b : string) :
  toUpperCase (a ++ b) = (toUpperCase a ++ toUpperCase b)%string.
Proof. induction a as [|c a IH]; simpl; [|rewrite IH]; reflexivity. Qed.

(** Every index below the length of [chars] gives one of its characters,
    none of them a lower-case letter. *)
Lemma charAt_chars (i : Z) :
  0 <= i < 36 ->
  exists c, charAt chars i = String c "" /\
            In c (list_ascii_of_string chars) /\ upperChar c = c.
Proof.
  intros Hi. unfold charAt. destruct (i <? 0) eqn:E; [apply Z.ltb_lt in E; lia|].
  assert (Hn : (Z.to_nat i < 36)%nat) by lia.
  revert Hn. generalize (Z.to_nat i). intro n.
  do 36 (destruct n as [|n];
         [intros _; eexists; split; [reflexivity|];
          split; [vm_compute; tauto|reflexivity]|]).
  intro H. lia.
Qed.

(** [Math.floor(Math.random() * chars.length)] is an index of [chars]. *)
Lemma random_index (r : Q) :
  (0 <= r)%Q -> (r < 1)%Q ->
  0 <= Qfloor (r * inject_Z (Z.of_nat (String.length chars))) < 36.
Proof.
  intros H0 H1. change (inject_Z (Z.of_nat (String.length chars))) with 36%Q.
  pose proof (Qfloor_le (r * 36)) as Hle.
  pose proof (Qlt_floor (r * 36)) as Hlt.
  split.
  - assert (H : (inject_Z 0 < inject_Z (Qfloor (r * 36) + 1))%Q)
      by (change (inject_Z 0) with 0%Q; lra).
    rewrite <- Zlt_Qlt in H. lia.
  - assert (H : (inject_Z (Qfloor (r * 36)) < inject_Z 36)%Q)
      by (change (inject_Z 36) with 36%Q; lra).
    rewrite <- Zlt_Qlt in H. exact H.
Qed.

Lemma generateCaptchaRounds_good (random : nat -> Q) (n k : nat) (result : string) :
  (forall j, (0 <= random j)%Q /\ (random j < 1)%Q) ->
  (forall c, In c (list_ascii_of_string result) ->
             In c (list_ascii_of_string chars)) ->
  toUpperCase result = result ->
  String.length (generateCaptchaRounds n random k result)
  = (String.length result + n)%nat /\
  (forall c, In c (list_ascii_of_string (generateCaptchaRounds n random k result)) ->
             In c (list_ascii_of_string chars)) /\
  toUpperCase (generateCaptchaRounds n random k result)
  = generateCaptchaRounds n random k result.
Proof.
  intros Hr. revert k result.
  induction n as [|n IH]; intros k result Hin Hup; cbn [generateCaptchaRounds].
  - split; [lia|]. auto.
  - destruct (Hr k) as [H0 H1].
    destruct (charAt_chars _ (random_index (random k) H0 H1))
      as (c & Ec & Hc & Hu).
    rewrite Ec.
    destruct (IH (S k) (result ++ String c "")%string) as (Hl & Ha & Hs).
    + intros c' Hc'. rewrite list_ascii_app in Hc'. apply in_app_or in Hc'.
      destruct Hc' as [Hc'|[<-|[]]]; auto.
    + rewrite toUpperCase_app, Hup. simpl. rewrite Hu. reflexivity.
    + rewrite Hl, string_length_app. simpl. split; [lia|]. auto.
Qed.

(** X12. Whatever [Math.random()] returns in [0, 1), [generateCaptcha]
    gives exactly six characters, each taken from the 36 digits and
    upper-case letters (the index never falls outside the alphabet, so no
    round adds the empty string), and typing the text as shown passes the
    check of the dialog, which compares with the input in upper case. *)
Theorem generated_captcha_is_well_formed (random random' : nat -> Q)
    (m : TextCaptcha.t) :
  (forall j, (0 <= random j)%Q /\ (random j < 1)%Q) ->
  TextCaptcha.captcha m = generateCaptcha random ->
  String.length (generateCaptcha random) = 6%nat /\
  (forall c, In c (list_ascii_of_string (generateCaptcha random)) ->
             In c (list_ascii_of_string chars)) /\
  (TextCaptcha.input m = TextCaptcha.captcha m ->
   TextCaptcha.handleSubmit random' m = (m, true)).
Proof.
  intros Hr Hm.
  destruct (generateCaptchaRounds_good random 6 0 "" Hr) as (Hl & Ha & Hu).
  - intros c [].
  - reflexivity.
  - split; [exact Hl|]. split; [exact Ha|].
    intro Hi. unfold TextCaptcha.handleSubmit. rewrite Hi, Hm.
    unfold generateCaptcha. rewrite Hu, String.eqb_refl. reflexivity.
Qed.

Lemma generated_captcha_is_well_formed_witness :
  String.length (generateCaptcha harmonic) = 6%nat /\
  (forall c, In c (list_ascii_of_string (generateCaptcha harmonic)) ->
             In c (list_ascii_of_string chars)) /\
  (TextCaptcha.input
     {| TextCaptcha.captcha := "IC9765"; TextCaptcha.input := "IC9765";
        TextCaptcha.error := false |}
   = TextCaptcha.captcha
       {| TextCaptcha.captcha := "IC9765"; TextCaptcha.input := "IC9765";
          TextCaptcha.error := false |} ->
   TextCaptcha.handleSubmit harmonic
     {| TextCaptcha.captcha := "IC9765"; TextCaptcha.input := "IC9765";
        TextCaptcha.error := false |}
   = ({| TextCaptcha.captcha := "IC9765"; TextCaptcha.input := "IC9765";
         TextCaptcha.error := false |}, true)).
Proof.
  apply (generated_captcha_is_well_formed harmonic harmonic
           {| TextCaptcha.captcha := "IC9765"; TextCaptcha.input := "IC9765";
              TextCaptcha.error := false |}).
  - intro j. unfold harmonic, Qle, Qlt. cbn [Qnum Qden].
    pose proof (Zpos_P_of_succ_nat (S j)). lia.
  - vm_compute. reflexivity.
Defined.

(** ** The reCAPTCHA dialog *)

Lemma after_snoc (es : list CaptchaModal.Event) (e : CaptchaModal.Event) :
  CaptchaModal.after (es ++ [e]) = CaptchaModal.step e (CaptchaModal.after es).
Proof. unfold CaptchaModal.after. rewrite fold_left_app. reflexivity. Qed.

Lemma verified_kept (later : list CaptchaModal.Event) (m : CaptchaModal.t) :
  CaptchaModal.verified m = true ->
  forallb (fun e => negb (CaptchaModal.revokes e)) later = true ->
  CaptchaModal.verified (fold_left (fun m e => CaptchaModal.step e m) later m)
  = true.
Proof.
  revert m. induction later as [|e later IH]; intros m Hm Hl; simpl in *;
    [assumption|].
  apply andb_true_iff in Hl. destruct Hl as [He Hl]. apply IH; [|assumption].
  destruct e as [[tok|]| | | |]; simpl in *; try discriminate; try assumption.
  - destruct (truthy tok); [reflexivity|assumption].
  - unfold CaptchaModal.handleSubmit. rewrite Hm. assumption.
Qed.

(** X13. Submitting the dialog starts the download exactly when the
    widget has delivered a non-empty token and, since then, has reported
    neither an expiry nor an error and the dialog has not been created
    anew; an earlier failed submit does not matter. *)
Theorem download_needs_a_live_token (es : list CaptchaModal.Event) :
  snd (CaptchaModal.handleSubmit (CaptchaModal.after es)) = true
  <->
  exists before tok later,
    es = before ++ CaptchaModal.Change (Some tok) :: later /\
    truthy tok = true /\
    forallb (fun e => negb (CaptchaModal.revokes e)) later = true.
Proof.
  assert (Hsub : forall m, snd (CaptchaModal.handleSubmit m)
                           = CaptchaModal.verified m).
  { intro m. unfold CaptchaModal.handleSubmit.
    destruct (CaptchaModal.verified m); reflexivity. }
  rewrite Hsub. split.
  - induction es as [|e es IH] using rev_ind; [discriminate|].
    rewrite after_snoc. intro H.
    assert (Hkeep : CaptchaModal.verified (CaptchaModal.after es) = true ->
                    CaptchaModal.revokes e = false ->
                    exists before tok later,
                      es ++ [e] = before ++ CaptchaModal.Change (Some tok) :: later /\
                      truthy tok = true /\
                      forallb (fun e => negb (CaptchaModal.revokes e)) later = true).
    { intros Hv He. destruct (IH Hv) as (before & tok & later & -> & Ht & Hl).
      exists before, tok, (later ++ [e]). split.
      - rewrite <- app_assoc. reflexivity.
      - split; [assumption|]. rewrite forallb_app, Hl. simpl. rewrite He.
        reflexivity. }
    destruct e as [[tok|]| | | |]; simpl in H; try discriminate.
    + destruct (truthy tok) eqn:Et.
      * exists es, tok, []. auto.
      * apply Hkeep; [assumption|reflexivity].
    + apply Hkeep; [assumption|reflexivity].
    + apply Hkeep; [|reflexivity].
      unfold CaptchaModal.handleSubmit in H.
      destruct (CaptchaModal.verified (CaptchaModal.after es)); [reflexivity|].
      simpl in H. discriminate.
  - intros (before & tok & later & -> & Ht & Hl).
    unfold CaptchaModal.after. rewrite fold_left_app. simpl.
    apply verified_kept; [|assumption].
    rewrite Ht. reflexivity.
Qed.

(** ** The donation dialog *)

(** X14. The first answer the donation dialog records is final: once a
    status is set, no button of the dialog changes it (a closed dialog
    that recorded "considered" never turns into "donated"), and asking
    for any platform other than ['paypal'] throws before any state is
    set. *)
Theorem donation_status_is_final (cs : list Donation.Click) (s : Donation.t)
    (platform : string) :
  Donation.donationStatus s <> None ->
  platform <> "paypal"%string ->
  Donation.donationStatus (fold_left (fun s c => Donation.click c s) cs s)
  = Donation.donationStatus s /\
  Donation.handleDonate platform s = None.
Proof.
  intros Hs Hp. split.
  - revert s Hs. induction cs as [|c cs IH]; intros s Hs; simpl; [reflexivity|].
    assert (E : Donation.donationStatus (Donation.click c s)
                = Donation.donationStatus s).
    { destruct c; simpl; destruct (Donation.donationStatus s) eqn:Es;
        try reflexivity; try assumption; congruence. }
    rewrite IH; [exact E|rewrite E; exact Hs].
  - unfold Donation.handleDonate.
    destruct (String.eqb platform "paypal") eqn:E; [|reflexivity].
    apply String.eqb_eq in E. contradiction.
Qed.

Lemma donation_status_is_final_witness :
  Donation.donationStatus
    (fold_left (fun s c => Donation.click c s)
       [Donation.Donate "paypal"; Donation.Close; Donation.Later]
       {| Donation.donationStatus := Some Donation.considered;
          Donation.showDonationModal := true |})
  = Some Donation.considered /\
  Donation.handleDonate "payoneer"
    {| Donation.donationStatus := Some Donation.considered;
       Donation.showDonationModal := true |} = None.
Proof.
  apply (donation_status_is_final
           [Donation.Donate "paypal"; Donation.Close; Donation.Later]
           {| Donation.donationStatus := Some Donation.considered;
              Donation.showDonationModal := true |} "payoneer");
    discriminate.
Defined.

(** ** The language switch *)

(** X15. The language switch only ever selects ['en'] or ['es']: from
    ['en'] an even number of clicks gives ['en'] and an odd number ['es'],
    from any other value one click gives ['en'], and three clicks equal
    one. *)
Theorem language_follows_click_parity (n : nat) (other : string) :
  Nat.iter n toggleLanguage "en"%string
  = (if Nat.even n then "en" else "es")%string /\
  (toggleLanguage other = "en"%string \/ toggleLanguage other = "es"%string) /\
  (other <> "en"%string -> toggleLanguage other = "en"%string) /\
  toggleLanguage (toggleLanguage (toggleLanguage other)) = toggleLanguage other.
Proof.
  split; [|split; [|split]].
  - induction n as [|n IH]; [reflexivity|].
    cbn [Nat.iter nat_rect]. change (Nat.iter n toggleLanguage "en"%string)
      with (nat_rect (fun _ => string) "en"%string
              (fun _ => toggleLanguage) n) in IH.
    rewrite IH, Nat.even_succ, <- Nat.negb_even.
    destruct (Nat.even n); reflexivity.
  - unfold toggleLanguage. destruct (String.eqb other "en"); auto.
  - intro Hne. unfold toggleLanguage.
    destruct (String.eqb other "en") eqn:E; [|reflexivity].
    apply String.eqb_eq in E. contradiction.
  - unfold toggleLanguage. destruct (String.eqb other "en"); reflexivity.
Qed.

Lemma language_follows_click_parity_witness :
  Nat.iter 3 toggleLanguage "en"%string = "es"%string /\
  toggleLanguage "fr" = "en"%string.
Proof.
  destruct (language_follows_click_parity 3 "fr") as (H1 & _ & H2 & _).
  split; [exact H1|]. apply H2. discriminate.
Defined.

(** ** When the callbacks have run *)




(** ** Rounding to a double

    What the loops need of [round64]: it errs by at most [eps], relative
    to what it rounds. *)

Lemma roundHalfEven_error (N D : Z) :
  0 <= N -> 0 < D -> 2 * Z.abs (roundHalfEven N D * D - N) <= D.
Proof.
  intros HN HD. unfold roundHalfEven.
  pose proof (Z.div_mod N D ltac:(lia)) as E.
  pose proof (Z.mod_pos_bound N D HD) as Hr.
  set (q := N / D) in *. set (r := N mod D) in *.
  destruct (Z.ltb_spec (2 * r) D); [nia|].
  destruct (Z.ltb_spec D (2 * r)); [nia|].
  destruct (Z.even q); nia.
Qed.

Lemma exponent_lower (n d : Z) :
  0 < n -> 0 < d ->
  2 ^ 52 * snd (scaled (exponentOf n d) n d) <= fst (scaled (exponentOf n d) n d).
Proof.
  intros Hn Hd. unfold exponentOf.
  set (e0 := Z.log2 n - Z.log2 d - 53).
  destruct (Z.leb_spec (2 ^ 52 * snd (scaled (e0 + 1) n d))
                       (fst (scaled (e0 + 1) n d))) as [H|H]; [exact H|].
  clear H. unfold scaled, fst, snd.
  pose proof (Z.log2_spec n Hn) as [Ln1 Ln2].
  pose proof (Z.log2_spec d Hd) as [Ld1 Ld2].
  pose proof (Z.log2_nonneg n) as Pn. pose proof (Z.log2_nonneg d) as Pd.
  set (ln := Z.log2 n) in *. set (ld := Z.log2 d) in *.
  destruct (Z.le_gt_cases 0 e0) as [He|He].
  - rewrite (Z.max_r 0 e0) by lia. rewrite (Z.max_l 0 (- e0)) by lia.
    rewrite Z.pow_0_r, Z.mul_1_r.
    assert (E : 2 ^ ln = 2 ^ 52 * 2 ^ Z.succ ld * 2 ^ e0).
    { rewrite <- !Z.pow_add_r by lia. f_equal. unfold e0. lia. }
    assert (0 < 2 ^ e0) by (apply Z.pow_pos_nonneg; lia).
    nia.
  - rewrite (Z.max_l 0 e0) by lia. rewrite (Z.max_r 0 (- e0)) by lia.
    rewrite Z.pow_0_r, Z.mul_1_r.
    assert (E : 2 ^ ln * 2 ^ (- e0) = 2 ^ 52 * 2 ^ Z.succ ld).
    { rewrite <- !Z.pow_add_r by lia. f_equal. unfold e0. lia. }
    assert (0 < 2 ^ (- e0)) by (apply Z.pow_pos_nonneg; lia).
    nia.
Qed.

Lemma Qdiv_le_cross (a b c d : Z) :
  0 < b -> 0 < d ->
  a * d <= c * b -> (inject_Z a / inject_Z b <= inject_Z c / inject_Z d)%Q.
Proof.
  intros Hb Hd H.
  assert (Hb' : (0 < inject_Z b)%Q) by (change 0%Q with (inject_Z 0); rewrite <- Zlt_Qlt; lia).
  assert (Hd' : (0 < inject_Z d)%Q) by (change 0%Q with (inject_Z 0); rewrite <- Zlt_Qlt; lia).
  apply Qle_shift_div_l; [assumption|].
  assert (E : (inject_Z a / inject_Z b * inject_Z d
               == inject_Z (a * d) / inject_Z b)%Q).
  { rewrite inject_Z_mult. field. lra. }
  rewrite E. apply Qle_shift_div_r; [assumption|].
  rewrite <- inject_Z_mult, <- Zle_Qle. exact H.
Qed.

Lemma roundPos_error (n d : Z) :
  0 < n -> 0 < d ->
  (Qabs (roundPos n d - inject_Z n / inject_Z d)
   <= inject_Z n / inject_Z d * eps)%Q.
Proof.
  intros Hn Hd.
  pose proof (exponent_lower n d Hn Hd) as H2.
  unfold roundPos. set (e := exponentOf n d) in *.
  unfold scaled, fst, snd in *.
  set (P := 2 ^ Z.max 0 e) in *. set (Nn := 2 ^ Z.max 0 (- e)) in *.
  assert (HP : 0 < P) by (apply Z.pow_pos_nonneg; lia).
  assert (HNn : 0 < Nn) by (apply Z.pow_pos_nonneg; lia).
  pose proof (roundHalfEven_error (n * Nn) (d * P) ltac:(nia) ltac:(nia)) as H1.
  set (M := roundHalfEven (n * Nn) (d * P)) in *.
  assert (Hd' : ~ (inject_Z d == 0)%Q).
  { intro E. assert (H : (inject_Z 0 < inject_Z d)%Q) by (rewrite <- Zlt_Qlt; lia).
    rewrite E in H. discriminate. }
  assert (HNn' : ~ (inject_Z Nn == 0)%Q).
  { intro E. assert (H : (inject_Z 0 < inject_Z Nn)%Q) by (rewrite <- Zlt_Qlt; lia).
    rewrite E in H. discriminate. }
  assert (Ex : (inject_Z (M * P) / inject_Z Nn - inject_Z n / inject_Z d
                == inject_Z (M * (d * P) - n * Nn) / inject_Z (Nn * d))%Q).
  { unfold Zminus. rewrite inject_Z_plus, inject_Z_opp, !inject_Z_mult.
    field. split; assumption. }
  assert (Ey : (inject_Z n / inject_Z d * eps
                == inject_Z n / inject_Z (d * 2 ^ 53))%Q).
  { rewrite inject_Z_mult. unfold eps. change (inject_Z (2 ^ 53)) with (9007199254740992%Q).
    field. assumption. }
  rewrite Ex, Ey. apply Qabs_Qle_condition. split.
  - assert (Eo : (- (inject_Z n / inject_Z (d * 2 ^ 53))
                  == inject_Z (- n) / inject_Z (d * 2 ^ 53))%Q).
    { rewrite inject_Z_opp. field. rewrite inject_Z_mult.
      change (inject_Z (2 ^ 53)) with (9007199254740992%Q).
      intro E. apply Hd'. lra. }
    rewrite Eo. apply Qdiv_le_cross; [nia|nia|].
    change (2 ^ 53) with (2 * 2 ^ 52). nia.
  - apply Qdiv_le_cross; [nia|nia|].
    change (2 ^ 53) with (2 * 2 ^ 52). nia.
Qed.

Lemma round64_error (q : Q) : (Qabs (round64 q - q) <= Qabs q * eps)%Q.
Proof.
  destruct q as [n d]. unfold round64. cbn [Qnum Qden].
  assert (Eq : forall z, (z # d == inject_Z z / inject_Z (Z.pos d))%Q)
    by (intro z; apply Qmake_Qdiv).
  destruct n as [|n|n].
  - rewrite (Eq 0). unfold Qdiv. rewrite Qmult_0_l. unfold eps. simpl. discriminate.
  - pose proof (roundPos_error (Z.pos n) (Z.pos d) ltac:(lia) ltac:(lia)) as H.
    rewrite (Eq (Z.pos n)).
    rewrite (Qabs_pos (inject_Z (Z.pos n) / inject_Z (Z.pos d))); [exact H|].
    apply Qle_shift_div_l; [reflexivity|]. rewrite Qmult_0_l. discriminate.
  - pose proof (roundPos_error (Z.pos n) (Z.pos d) ltac:(lia) ltac:(lia)) as H.
    rewrite (Eq (Z.neg n)).
    assert (En : (inject_Z (Z.neg n) / inject_Z (Z.pos d)
                  == - (inject_Z (Z.pos n) / inject_Z (Z.pos d)))%Q).
    { change (Z.neg n) with (- Z.pos n). rewrite inject_Z_opp. field. discriminate. }
    rewrite En. rewrite Qabs_opp.
    rewrite (Qabs_pos (inject_Z (Z.pos n) / inject_Z (Z.pos d))).
    + assert (Es : (- roundPos (Z.pos n) (QDen (Z.neg n # d))
                    - - (inject_Z (Z.pos n) / inject_Z (Z.pos d))
                    == - (roundPos (Z.pos n) (Z.pos d)
                          - inject_Z (Z.pos n) / inject_Z (Z.pos d)))%Q)
        by (cbn [Qden]; ring).
      rewrite Es, Qabs_opp. exact H.
    + apply Qle_shift_div_l; [reflexivity|]. rewrite Qmult_0_l. discriminate.
Qed.

(** ** The tiling loops in double precision *)

(** A loop whose test is [x < stop] on every state it meets visits the
    values of [range64], and ends on its test when they are fewer than the
    fuel. *)
Lemma for_loop_range {St : Type} (P : St -> Prop) (cond : Q -> St -> bool)
    (body : Q -> St -> option St) (stop sp : Q) :
  (forall x s, P s -> cond x s = Qltb x stop) ->
  (forall x s s', P s -> body x s = Some s' -> P s') ->
  forall fuel x s,
    P s -> (List.length (range64 fuel x stop sp) < fuel)%nat ->
    for_loop fuel x cond (fun x => fadd x sp) body s
    = foldM body (range64 fuel x stop sp) s.
Proof.
  intros Hcond Hinv fuel.
  induction fuel as [|fuel IH]; intros x s HP Hlen; [simpl in Hlen; lia|].
  cbn [for_loop range64] in *. rewrite (Hcond _ _ HP).
  destruct (Qltb x stop); [|reflexivity].
  cbn [foldM]. destruct (body x s) as [s'|] eqn:Hb; [|reflexivity].
  apply IH; [eapply Hinv; eassumption|]. cbn [List.length] in Hlen. lia.
Qed.

(** The values of [range64] are the loop values of the rounds made: every
    round before the last passes the test, the next one fails it. *)
Lemma range64_rounds (stop sp : Q) (fuel : nat) (x : Q) :
  (List.length (range64 fuel x stop sp) < fuel)%nat ->
  (forall i, (i < List.length (range64 fuel x stop sp))%nat ->
             (loopValue sp x i < stop)%Q) /\
  ~ (loopValue sp x (List.length (range64 fuel x stop sp)) < stop)%Q /\
  (forall v, In v (range64 fuel x stop sp) <->
             exists i, (i < List.length (range64 fuel x stop sp))%nat /\
                       v = loopValue sp x i).
Proof.
  revert x. induction fuel as [|fuel IH]; intros x Hlen; [simpl in Hlen; lia|].
  cbn [range64] in *. destruct (Qltb x stop) eqn:Ht.
  - cbn [List.length] in *.
    destruct (IH (fadd x sp) ltac:(lia)) as (Hin & Hout & Hmem).
    assert (Hshift : forall i, loopValue sp x (S i) = loopValue sp (fadd x sp) i).
    { intro i. unfold loopValue.
      exact (Nat.iter_succ_r i Q (fun v => fadd v sp) x). }
    split; [|split].
    + intros [|i] Hi; [apply Qltb_lt; exact Ht|].
      rewrite Hshift. apply Hin. lia.
    + rewrite Hshift. exact Hout.
    + intro v. split.
      * intros [<-|Hv]; [exists O; split; [lia|reflexivity]|].
        apply Hmem in Hv. destruct Hv as (i & Hi & ->).
        exists (S i). split; [lia|]. symmetry. apply Hshift.
      * intros ([|i] & Hi & ->); [left; reflexivity|].
        right. apply Hmem. exists i. split; [lia|]. apply Hshift.
  - cbn [List.length]. split; [intros i Hi; lia|]. split.
    + apply Qltb_nlt. exact Ht.
    + intro v. split; [intros []|intros (i & Hi & _); lia].
Qed.

Lemma tileLoops64_emits (fuel : nat) (sp : Q) (draw : Q -> Q -> Canvas -> Canvas)
    (op : Q -> Q -> GState -> DrawOp) (c : Canvas) :
  (forall x y c0, draw x y c0 = emit (op x y (cv_state c0)) c0) ->
  (List.length (range64 fuel (inject_Z (- cv_width c))
                  (inject_Z (cv_width c * 2)) sp) < fuel)%nat ->
  (List.length (range64 fuel (inject_Z (- cv_height c))
                  (inject_Z (cv_height c * 2)) sp) < fuel)%nat ->
  tileLoops64 fuel sp draw c =
  Some (emits (tileOps64 fuel (cv_width c) (cv_height c) sp
                 (fun x y => op x y (cv_state c))) c).
Proof.
  intros Hdraw Hfw Hfh. unfold tileLoops64, tileOps64.
  set (w := cv_width c) in *. set (h := cv_height c) in *.
  set (g := cv_state c).
  assert (Hc : steady w h g c) by (unfold steady; auto).
  assert (Hrow : forall y c1, steady w h g c1 ->
            for_loop fuel (inject_Z (- cv_width c1))
              (fun x c0 => Qltb x (inject_Z (cv_width c0 * 2)))
              (fun x => fadd x sp)
              (fun x c2 => Some (draw x y c2)) c1 =
            Some (emits (map (fun x => op x y g)
                           (range64 fuel (inject_Z (- w)) (inject_Z (w * 2)) sp))
                    c1)).
  { intros y c1 Hc1. pose proof Hc1 as (E1 & _ & _). rewrite E1.
    rewrite (for_loop_range (steady w h g) _ _ (inject_Z (w * 2)) sp);
      try assumption.
    - rewrite <- flat_map_single.
      apply (foldM_emits w h g); [|assumption].
      intros x c2 (_ & _ & E). rewrite Hdraw, E. reflexivity.
    - intros x s (E & _ & _). rewrite E. reflexivity.
    - intros x s s' Hs E. injection E as <-. rewrite Hdraw.
      apply steady_emits. assumption. }
  rewrite (for_loop_range (steady w h g) _ _ (inject_Z (h * 2)) sp);
    try assumption.
  - apply (foldM_emits w h g); assumption.
  - intros x s (_ & E & _). rewrite E. reflexivity.
  - intros y s s' Hs E. rewrite (Hrow _ _ Hs) in E. injection E as <-.
    apply steady_emits. assumption.
Qed.

(** The exact spacing [u = max / density] and its double [s]: [s] is [u]
    up to [eps], and [u] lies between a fifth of [max] and [max]. *)
Lemma spacing64_bounds (m den : Z) :
  0 < m -> 1 <= den <= 5 ->
  (0 < inject_Z m / inject_Z den)%Q /\
  (inject_Z m / inject_Z den <= inject_Z m)%Q /\
  (inject_Z m <= 5 * (inject_Z m / inject_Z den))%Q /\
  (inject_Z m / inject_Z den * (1 - eps)
   <= fdiv (inject_Z m) (inject_Z den))%Q /\
  (fdiv (inject_Z m) (inject_Z den)
   <= inject_Z m / inject_Z den * (1 + eps))%Q.
Proof.
  intros Hm Hden.
  pose proof (inject_Z_pos m Hm) as Hm'.
  pose proof (inject_Z_pos den ltac:(lia)) as Hd'.
  assert (H1 : (1 <= inject_Z den)%Q)
    by (change 1%Q with (inject_Z 1); rewrite <- Zle_Qle; lia).
  assert (H5 : (inject_Z den <= 5)%Q)
    by (change 5%Q with (inject_Z 5); rewrite <- Zle_Qle; lia).
  set (u := (inject_Z m / inject_Z den)%Q).
  assert (Hu : (0 < u)%Q) by (apply baseSpacing_pos; lia).
  assert (Eu : (inject_Z den * u == inject_Z m)%Q).
  { unfold u. field. lra. }
  assert (Hum : (u <= inject_Z m)%Q).
  { rewrite <- Eu. rewrite <- (Qmult_1_l u) at 1.
    apply Qmult_le_compat_r; lra. }
  assert (Hmu : (inject_Z m <= 5 * u)%Q).
  { rewrite <- Eu. apply Qmult_le_compat_r; lra. }
  split; [exact Hu|]. split; [exact Hum|]. split; [exact Hmu|].
  pose proof (round64_error u) as He.
  rewrite (Qabs_pos u) in He by lra.
  apply Qabs_Qle_condition in He. destruct He as [Hl Hr].
  unfold fdiv. fold u. split; lra.
Qed.

(** One [x += spacing] inside the loop advances [x] by the exact spacing
    up to 21 [eps]. *)
Lemma step64_bounds (dim m den : Z) (x : Q) :
  0 < dim -> dim <= m -> 1 <= den <= 5 ->
  (inject_Z (- dim) <= x)%Q -> (x < inject_Z (dim * 2))%Q ->
  (x + inject_Z m / inject_Z den * (1 - 21 * eps)
   <= fadd x (fdiv (inject_Z m) (inject_Z den)))%Q /\
  (fadd x (fdiv (inject_Z m) (inject_Z den))
   <= x + inject_Z m / inject_Z den * (1 + 21 * eps))%Q.
Proof.
  intros Hdim Hm Hden Hlo Hhi.
  destruct (spacing64_bounds m den ltac:(lia) Hden) as (Hu & Hum & Hmu & Hsl & Hsu).
  set (u := (inject_Z m / inject_Z den)%Q) in *.
  set (s := fdiv (inject_Z m) (inject_Z den)) in *.
  assert (Hdm : (inject_Z dim <= inject_Z m)%Q) by (rewrite <- Zle_Qle; lia).
  rewrite inject_Z_opp in Hlo. rewrite inject_Z_mult in Hhi.
  change (inject_Z 2) with 2%Q in Hhi.
  assert (He0 : (0 <= eps)%Q) by discriminate.
  assert (He1 : (eps <= 1)%Q) by discriminate.
  assert (Hue : (0 <= u * eps)%Q) by (apply Qmult_le_0_compat; lra).
  assert (Hue1 : (u * eps <= u)%Q).
  { rewrite <- (Qmult_1_r u) at 2. apply Qmult_le_l; lra. }
  pose proof (round64_error (x + s)) as He. fold (fadd x s) in He.
  assert (Habs : (Qabs (x + s) <= 4 * inject_Z m)%Q).
  { apply Qabs_Qle_condition. split; lra. }
  assert (Hb : (Qabs (x + s) * eps <= 4 * inject_Z m * eps)%Q).
  { apply Qmult_le_compat_r; assumption. }
  assert (Hme : (inject_Z m * eps <= 5 * (u * eps))%Q).
  { assert (E : (5 * (u * eps) == 5 * u * eps)%Q) by ring.
    rewrite E. apply Qmult_le_compat_r; assumption. }
  apply Qabs_Qle_condition in He. destruct He as [Hl Hr].
  split; lra.
Qed.

(** The rounds of a tiling loop in doubles: at most [3 * density + 1]. *)
Lemma range64_length (dim m den : Z) (fuel : nat) :
  0 < dim -> dim <= m -> 1 <= den <= 5 ->
  forall (k : nat) (x : Q),
    (k <= S (Z.to_nat (3 * den)))%nat ->
    (inject_Z (- dim) + qnat k * (inject_Z m / inject_Z den * (1 - 21 * eps))
     <= x)%Q ->
    (List.length (range64 fuel x (inject_Z (dim * 2))
                    (fdiv (inject_Z m) (inject_Z den))) + k
     <= S (Z.to_nat (3 * den)))%nat.
Proof.
  intros Hdim Hm Hden.
  destruct (spacing64_bounds m den ltac:(lia) Hden) as (Hu & Hum & Hmu & _ & _).
  set (u := (inject_Z m / inject_Z den)%Q) in *.
  set (s := fdiv (inject_Z m) (inject_Z den)) in *.
  assert (Hdm : (inject_Z dim <= inject_Z m)%Q) by (rewrite <- Zle_Qle; lia).
  assert (He0 : (0 <= eps)%Q) by discriminate.
  assert (Hue : (0 <= u * eps)%Q) by (apply Qmult_le_0_compat; lra).
  assert (Hme : (inject_Z m * eps <= 5 * (u * eps))%Q).
  { assert (E : (5 * (u * eps) == 5 * u * eps)%Q) by ring.
    rewrite E. apply Qmult_le_compat_r; assumption. }
  assert (Hc : (0 <= u * (1 - 21 * eps))%Q).
  { apply Qmult_le_0_compat; [lra|]. unfold eps. discriminate. }
  assert (Eu : (inject_Z den * u == inject_Z m)%Q).
  { unfold u. field. intro E.
    assert (H : (inject_Z 0 < inject_Z den)%Q) by (rewrite <- Zlt_Qlt; lia).
    rewrite E in H. discriminate. }
  assert (HK : (qnat (S (Z.to_nat (3 * den))) * (u * (1 - 21 * eps))
                == (3 * inject_Z m + u) * (1 - 21 * eps))%Q).
  { rewrite qnat_succ. unfold qnat. rewrite Z2Nat.id by lia.
    rewrite inject_Z_mult. change (inject_Z 3) with 3%Q.
    transitivity ((3 * (inject_Z den * u) + u) * (1 - 21 * eps))%Q; [ring|].
    rewrite Eu. reflexivity. }
  induction fuel as [|fuel IH]; intros k x Hk Hx; cbn [range64 List.length];
    [lia|].
  destruct (Qltb x (inject_Z (dim * 2))) eqn:Ht; [|cbn [List.length]; lia].
  apply Qltb_lt in Ht. cbn [List.length].
  assert (Hkc : (0 <= qnat k * (u * (1 - 21 * eps)))%Q).
  { apply Qmult_le_0_compat; [|assumption].
    unfold qnat. change 0%Q with (inject_Z 0). rewrite <- Zle_Qle. lia. }
  assert (Hlt : (k < S (Z.to_nat (3 * den)))%nat).
  { destruct (Nat.eq_dec k (S (Z.to_nat (3 * den)))) as [E|E]; [|lia].
    exfalso. rewrite E in Hx. rewrite HK in Hx.
    rewrite inject_Z_opp in Hx. rewrite inject_Z_mult in Ht.
    change (inject_Z 2) with 2%Q in Ht.
    assert (Hexp : ((3 * inject_Z m + u) * (1 - 21 * eps)
                    == 3 * inject_Z m + u - 63 * (inject_Z m * eps)
                       - 21 * (u * eps))%Q) by ring.
    rewrite Hexp in Hx.
    assert (Hsmall : (336 * (u * eps) <= u)%Q).
    { assert (E' : (336 * (u * eps) == u * (336 * eps))%Q) by ring.
      rewrite E'. rewrite <- (Qmult_1_r u) at 2.
      apply Qmult_le_l; [assumption|]. unfold eps. discriminate. }
    lra. }
  assert (Hlo : (inject_Z (- dim) <= x)%Q) by lra.
  destruct (step64_bounds dim m den x Hdim Hm Hden Hlo Ht) as [Hstep _].
  fold u s in Hstep.
  specialize (IH (S k) (fadd x s) ltac:(lia)).
  assert (Hx' : (inject_Z (- dim) + qnat (S k) * (u * (1 - 21 * eps))
                 <= fadd x s)%Q).
  { rewrite qnat_succ. lra. }
  specialize (IH Hx'). lia.
Qed.

Lemma range64_fits (dim m den : Z) (fuel : nat) :
  0 < dim -> dim <= m -> 1 <= den <= 5 ->
  (S (Z.to_nat (3 * den)) < fuel)%nat ->
  (List.length (range64 fuel (inject_Z (- dim)) (inject_Z (dim * 2))
                  (fdiv (inject_Z m) (inject_Z den)))
   <= S (Z.to_nat (3 * den)))%nat /\
  (List.length (range64 fuel (inject_Z (- dim)) (inject_Z (dim * 2))
                  (fdiv (inject_Z m) (inject_Z den))) < fuel)%nat.
Proof.
  intros Hdim Hm Hden Hfuel.
  pose proof (range64_length dim m den fuel Hdim Hm Hden O (inject_Z (- dim))
                ltac:(lia)) as H.
  assert (H0 : (inject_Z (- dim)
                + qnat 0 * (inject_Z m / inject_Z den * (1 - 21 * eps))
                <= inject_Z (- dim))%Q) by (rewrite qnat_0; lra).
  specialize (H H0). lia.
Qed.

(** ** The pass in double precision, in closed form *)

Lemma composite64_closed (fuel : nat) (d : Deps) (canvas : Canvas) :
  0 < img_width (d_image d) -> 0 < img_height (d_image d) ->
  1 <= d_density d <= 5 -> (S (Z.to_nat (3 * d_density d)) < fuel)%nat ->
  composite64 fuel d canvas = Some (passResult64 fuel d).
Proof.
  intros Hw Hh Hd Hfuel. unfold passResult64.
  set (w := img_width (d_image d)) in *. set (h := img_height (d_image d)) in *.
  destruct (range64_fits w (Z.max w h) (d_density d) fuel Hw ltac:(lia) Hd Hfuel)
    as [_ Hrw].
  destruct (range64_fits h (Z.max w h) (d_density d) fuel Hh ltac:(lia) Hd Hfuel)
    as [_ Hrh].
  fold w h in Hrw, Hrh. change (fdiv (inject_Z (Z.max w h)) (inject_Z (d_density d)))
    with (baseSpacing64 d) in Hrw, Hrh.
  unfold composite64. fold w h.
  set (c3 := setGlobalAlpha (d_opacity d) (rotateDeg (d_angle d)
               (save (drawImage (d_image d) 0 0 (setHeight h (setWidth w canvas)))))).
  assert (E3 : c3 = {| cv_width := w; cv_height := h;
                       cv_bitmap := [DrawImage (d_image d) 0 0 None defaultGState];
                       cv_state := setupState d; cv_stack := [defaultGState] |}).
  { unfold c3, setGlobalAlpha, setupState. simpl.
    destruct (Qle_bool 0 (d_opacity d) && Qle_bool (d_opacity d) 1); reflexivity. }
  change (spacing64 (drawImage (d_image d) 0 0 (setHeight h (setWidth w canvas)))
            (d_density d)) with (baseSpacing64 d).
  rewrite E3. unfold compositeBitmap64, textOps64, rasterOps64, rasterState.
  assert (Hnz : (w =? 0) || (h =? 0) = false).
  { apply orb_false_iff. split; apply Z.eqb_neq; lia. }
  destruct (truthy (d_signature d)).
  - unfold drawTextWatermark64.
    match goal with
    | |- context [tileLoops64 fuel _ _ ?c] =>
        assert (E4 : c = {| cv_width := w; cv_height := h;
                            cv_bitmap := [DrawImage (d_image d) 0 0 None defaultGState];
                            cv_state := textState d;
                            cv_stack := [defaultGState] |})
          by (unfold setFillStyle, textState; fold (textStyle d);
              destruct (validStyle (textStyle d)); reflexivity);
        rewrite E4
    end.
    rewrite (tileLoops64_emits fuel _ _ (fun x y g => FillText (d_signature d) x y g));
      try assumption; try reflexivity.
    destruct (d_signatureImage d) as [si|].
    + unfold drawImageWatermark64.
      rewrite (tileLoops64_emits fuel _ _
                 (fun x y g => DrawImage si x y (Some (rasterSize64 d si)) g));
        try assumption; try reflexivity.
      unfold toDataURL, restore. simpl. fold w h. rewrite Hnz.
      reflexivity.
    + unfold toDataURL, restore. simpl. fold w h. rewrite Hnz.
      rewrite app_nil_r. reflexivity.
  - destruct (d_signatureImage d) as [si|].
    + unfold drawImageWatermark64.
      rewrite (tileLoops64_emits fuel _ _
                 (fun x y g => DrawImage si x y (Some (rasterSize64 d si)) g));
        try assumption; try reflexivity.
      unfold toDataURL, restore. simpl. fold w h. rewrite Hnz. reflexivity.
    + unfold toDataURL, restore. simpl. fold w h. rewrite Hnz. reflexivity.
Qed.

(** Rounding changes where the tiles are and how many, and nothing else:
    the two versions of the pass leave a canvas of the same dimensions in
    the same drawing state and return a PNG of the same size with the
    same first command. *)
Lemma composite64_frame (fuel : nat) (d : Deps) (canvas : Canvas) :
  0 < img_width (d_image d) -> 0 < img_height (d_image d) ->
  1 <= d_density d <= 5 -> (S (Z.to_nat (3 * d_density d)) < fuel)%nat ->
  exists r r64,
    composite fuel d canvas = Some r /\ composite64 fuel d canvas = Some r64 /\
    cv_width (fst r64) = cv_width (fst r) /\
    cv_height (fst r64) = cv_height (fst r) /\
    cv_state (fst r64) = cv_state (fst r) /\
    cv_stack (fst r64) = cv_stack (fst r) /\
    urlSize (snd r64) = urlSize (snd r) /\
    hd_error (urlBitmap (snd r64)) = hd_error (urlBitmap (snd r)).
Proof.
  intros Hw Hh Hd Hfuel.
  rewrite (composite_closed fuel d canvas Hw Hh ltac:(lia) ltac:(lia)).
  rewrite (composite64_closed fuel d canvas Hw Hh Hd Hfuel).
  eexists. eexists. split; [reflexivity|]. split; [reflexivity|].
  repeat split.
Qed.

Lemma tileOps64_In (fuel : nat) (w h : Z) (sp : Q) (op : Q -> Q -> DrawOp)
    (o : DrawOp) :
  In o (tileOps64 fuel w h sp op) <->
  exists x y, In x (range64 fuel (inject_Z (- w)) (inject_Z (w * 2)) sp) /\
              In y (range64 fuel (inject_Z (- h)) (inject_Z (h * 2)) sp) /\
              o = op x y.
Proof.
  unfold tileOps64. rewrite in_flat_map. split.
  - intros (y & Hy & Ho). apply in_map_iff in Ho. destruct Ho as (x & E & Hx).
    exists x, y. auto.
  - intros (x & y & Hx & Hy & E). exists y. split; [assumption|].
    apply in_map_iff. exists x. auto.
Qed.

Lemma tileOps64_count (fuel : nat) (w h : Z) (sp : Q) (op : Q -> Q -> DrawOp) :
  (forall x y, isTile (op x y) = true) ->
  tileCount (tileOps64 fuel w h sp op) =
  (List.length (range64 fuel (inject_Z (- h)) (inject_Z (h * 2)) sp)
   * List.length (range64 fuel (inject_Z (- w)) (inject_Z (w * 2)) sp))%nat.
Proof.
  intro Htile. unfold tileCount, tileOps64.
  induction (range64 fuel (inject_Z (- h)) (inject_Z (h * 2)) sp) as [|y l IH];
    simpl.
  - reflexivity.
  - rewrite filter_app, length_app, IH.
    rewrite row_count by (intro x; apply Htile). reflexivity.
Qed.

(** The tiles of a pass in doubles: the rounds of the two loops, once per
    signature kind supplied. *)
Lemma compositeBitmap64_count (fuel : nat) (d : Deps) :
  tileCount (compositeBitmap64 fuel d) =
  ((if truthy (d_signature d) then 1 else 0) *
     (List.length (range64 fuel (inject_Z (- img_height (d_image d)))
                     (inject_Z (img_height (d_image d) * 2)) (baseSpacing64 d))
      * List.length (range64 fuel (inject_Z (- img_width (d_image d)))
                       (inject_Z (img_width (d_image d) * 2)) (baseSpacing64 d)))
   + (match d_signatureImage d with Some _ => 1 | None => 0 end) *
     (List.length (range64 fuel (inject_Z (- img_height (d_image d)))
                     (inject_Z (img_height (d_image d) * 2)) (baseSpacing64 d))
      * List.length (range64 fuel (inject_Z (- img_width (d_image d)))
                       (inject_Z (img_width (d_image d) * 2)) (baseSpacing64 d))))%nat.
Proof.
  unfold compositeBitmap64.
  change (tileCount (?a :: ?l)) with (tileCount ([a] ++ l)).
  rewrite !tileCount_app. unfold textOps64, rasterOps64.
  destruct (truthy (d_signature d)); destruct (d_signatureImage d);
    rewrite ?tileOps64_count by reflexivity; unfold tileCount; simpl; lia.
Qed.

(** While the rounds before it pass the test, the loop variable of round
    [i] is [start + i * spacing] up to [21 * i * eps] of the spacing. *)
Lemma loopValue_close (dim m den : Z) :
  0 < dim -> dim <= m -> 1 <= den <= 5 ->
  forall i : nat,
    (forall k, (k < i)%nat ->
       (loopValue (fdiv (inject_Z m) (inject_Z den)) (inject_Z (- dim)) k
        < inject_Z (dim * 2))%Q) ->
    (Qabs (loopValue (fdiv (inject_Z m) (inject_Z den)) (inject_Z (- dim)) i
           - (inject_Z (- dim) + qnat i * (inject_Z m / inject_Z den)))
     <= qnat i * (inject_Z m / inject_Z den) * (21 * eps))%Q.
Proof.
  intros Hdim Hm Hden.
  destruct (spacing64_bounds m den ltac:(lia) Hden) as (Hu & _ & _ & _ & _).
  set (u := (inject_Z m / inject_Z den)%Q) in *.
  set (s := fdiv (inject_Z m) (inject_Z den)) in *.
  assert (He0 : (0 <= eps)%Q) by discriminate.
  assert (Hue : (0 <= u * eps)%Q) by (apply Qmult_le_0_compat; lra).
  assert (Hc : (0 <= u - 21 * (u * eps))%Q).
  { assert (E : (u - 21 * (u * eps) == u * (1 - 21 * eps))%Q) by ring.
    rewrite E. apply Qmult_le_0_compat; [lra|]. unfold eps. discriminate. }
  induction i as [|i IH]; intro Hpass.
  - change (loopValue s (inject_Z (- dim)) 0) with (inject_Z (- dim)).
    rewrite qnat_0.
    apply Qabs_Qle_condition. split; lra.
  - assert (Hi : (Qabs (loopValue s (inject_Z (- dim)) i
                        - (inject_Z (- dim) + qnat i * u))
                  <= qnat i * u * (21 * eps))%Q)
      by (apply IH; intros k Hk; apply Hpass; lia).
    apply Qabs_Qle_condition in Hi. destruct Hi as [Hl Hr].
    assert (Hq : (0 <= qnat i)%Q).
    { unfold qnat. change 0%Q with (inject_Z 0). rewrite <- Zle_Qle. lia. }
    assert (Hqc : (0 <= qnat i * (u - 21 * (u * eps)))%Q)
      by (apply Qmult_le_0_compat; assumption).
    assert (Hlo : (inject_Z (- dim) <= loopValue s (inject_Z (- dim)) i)%Q).
    { assert (E : (qnat i * (u - 21 * (u * eps))
                   == qnat i * u - qnat i * u * (21 * eps))%Q) by ring.
      rewrite E in Hqc. lra. }
    pose proof (Hpass i ltac:(lia)) as Hhi.
    destruct (step64_bounds dim m den _ Hdim Hm Hden Hlo Hhi) as [Hsl Hsu].
    fold u s in Hsl, Hsu.
    change (loopValue s (inject_Z (- dim)) (S i))
      with (fadd (loopValue s (inject_Z (- dim)) i) s).
    rewrite qnat_succ. apply Qabs_Qle_condition.
    set (v := loopValue s (inject_Z (- dim)) i) in *.
    set (v' := fadd v s) in *.
    assert (E1 : (u * (1 - 21 * eps) == u - 21 * (u * eps))%Q) by ring.
    assert (E2 : (u * (1 + 21 * eps) == u + 21 * (u * eps))%Q) by ring.
    assert (E3 : ((qnat i + 1) * u * (21 * eps)
                  == qnat i * u * (21 * eps) + 21 * (u * eps))%Q) by ring.
    assert (E4 : ((qnat i + 1) * u == qnat i * u + u)%Q) by ring.
    rewrite E1 in Hsl. rewrite E2 in Hsu. rewrite E3, E4.
    split; lra.
Qed.

(** ** The text tiles, as the loops place them *)

Lemma range64_nonempty (dim : Z) (sp : Q) (fuel : nat) :
  0 < dim ->
  (List.length (range64 fuel (inject_Z (- dim)) (inject_Z (dim * 2)) sp)
   < fuel)%nat ->
  (1 <= List.length (range64 fuel (inject_Z (- dim)) (inject_Z (dim * 2)) sp))%nat.
Proof.
  intros Hdim Hlen.
  destruct (range64_rounds _ sp fuel _ Hlen) as (_ & Hout & _).
  destruct (List.length (range64 fuel (inject_Z (- dim)) (inject_Z (dim * 2)) sp));
    [|lia].
  exfalso. apply Hout. change (loopValue sp (inject_Z (- dim)) 0)
    with (inject_Z (- dim)). rewrite <- Zlt_Qlt. lia.
Qed.

Lemma text_tiles64_general (fuel : nat) (d : Deps) (canvas : Canvas) :
  0 < img_width (d_image d) -> 0 < img_height (d_image d) ->
  1 <= d_density d <= 5 -> (S (Z.to_nat (3 * d_density d)) < fuel)%nat ->
  truthy (d_signature d) = true ->
  exists (canvas' : Canvas) (url : DataURL) (nx ny : nat),
    composite64 fuel d canvas = Some (canvas', url) /\
    spacing64 canvas' (d_density d)
    = fdiv (inject_Z (Z.max (img_width (d_image d)) (img_height (d_image d))))
           (inject_Z (d_density d)) /\
    (1 <= nx <= S (Z.to_nat (3 * d_density d)))%nat /\
    (1 <= ny <= S (Z.to_nat (3 * d_density d)))%nat /\
    (forall i, (i < nx)%nat ->
       (loopValue (spacing64 canvas' (d_density d))
          (inject_Z (- cv_width canvas')) i < inject_Z (cv_width canvas' * 2))%Q) /\
    ~ (loopValue (spacing64 canvas' (d_density d))
         (inject_Z (- cv_width canvas')) nx < inject_Z (cv_width canvas' * 2))%Q /\
    (forall j, (j < ny)%nat ->
       (loopValue (spacing64 canvas' (d_density d))
          (inject_Z (- cv_height canvas')) j < inject_Z (cv_height canvas' * 2))%Q) /\
    ~ (loopValue (spacing64 canvas' (d_density d))
         (inject_Z (- cv_height canvas')) ny < inject_Z (cv_height canvas' * 2))%Q /\
    (forall (t : string) (x y : Q) (g : GState),
       In (FillText t x y g) (urlBitmap url) <->
       t = d_signature d /\ g = textState d /\
       exists i j : nat,
         (i < nx)%nat /\ (j < ny)%nat /\
         x = loopValue (spacing64 canvas' (d_density d))
               (inject_Z (- cv_width canvas')) i /\
         y = loopValue (spacing64 canvas' (d_density d))
               (inject_Z (- cv_height canvas')) j) /\
    tileCount (urlBitmap url)
    = ((1 + match d_signatureImage d with Some _ => 1 | None => 0 end)
       * (ny * nx))%nat /\
    (forall i, (i <= nx)%nat ->
       (Qabs (loopValue (spacing64 canvas' (d_density d))
                (inject_Z (- cv_width canvas')) i
              - (inject_Z (- cv_width canvas')
                 + qnat i * (inject_Z (Z.max (cv_width canvas') (cv_height canvas'))
                             / inject_Z (d_density d))))
        <= qnat i * (inject_Z (Z.max (cv_width canvas') (cv_height canvas'))
                     / inject_Z (d_density d)) * (21 * eps))%Q) /\
    (forall j, (j <= ny)%nat ->
       (Qabs (loopValue (spacing64 canvas' (d_density d))
                (inject_Z (- cv_height canvas')) j
              - (inject_Z (- cv_height canvas')
                 + qnat j * (inject_Z (Z.max (cv_width canvas') (cv_height canvas'))
                             / inject_Z (d_density d))))
        <= qnat j * (inject_Z (Z.max (cv_width canvas') (cv_height canvas'))
                     / inject_Z (d_density d)) * (21 * eps))%Q).
Proof.
  intros Hw Hh Hd Hfuel Ht.
  rewrite (composite64_closed fuel d canvas Hw Hh Hd Hfuel).
  unfold passResult64.
  set (w := img_width (d_image d)) in *. set (h := img_height (d_image d)) in *.
  destruct (range64_fits w (Z.max w h) (d_density d) fuel Hw ltac:(lia) Hd Hfuel)
    as [Hbw Hrw].
  destruct (range64_fits h (Z.max w h) (d_density d) fuel Hh ltac:(lia) Hd Hfuel)
    as [Hbh Hrh].
  set (sp := fdiv (inject_Z (Z.max w h)) (inject_Z (d_density d))) in *.
  set (xs := range64 fuel (inject_Z (- w)) (inject_Z (w * 2)) sp) in *.
  set (ys := range64 fuel (inject_Z (- h)) (inject_Z (h * 2)) sp) in *.
  destruct (range64_rounds (inject_Z (w * 2)) sp fuel (inject_Z (- w)) Hrw)
    as (Hxin & Hxout & Hxmem).
  destruct (range64_rounds (inject_Z (h * 2)) sp fuel (inject_Z (- h)) Hrh)
    as (Hyin & Hyout & Hymem).
  fold xs in Hxin, Hxout, Hxmem. fold ys in Hyin, Hyout, Hymem.
  pose proof (range64_nonempty w sp fuel Hw Hrw) as Hx1.
  pose proof (range64_nonempty h sp fuel Hh Hrh) as Hy1.
  fold xs in Hx1. fold ys in Hy1.
  eexists. eexists. exists (List.length xs), (List.length ys).
  split; [reflexivity|].
  unfold urlBitmap. cbn [cv_width cv_height].
  change (spacing64 _ (d_density d)) with sp.
  split; [reflexivity|].
  split; [lia|]. split; [lia|].
  split; [exact Hxin|]. split; [exact Hxout|].
  split; [exact Hyin|]. split; [exact Hyout|].
  split; [|split; [|split]].
  - intros t x y g. unfold compositeBitmap64, textOps64, rasterOps64.
    rewrite Ht. fold w h. change (baseSpacing64 d) with sp. split.
    + intros [Hin|Hin]; [discriminate|].
      apply in_app_or in Hin. destruct Hin as [Hin|Hin].
      * apply tileOps64_In in Hin. destruct Hin as (xx & yy & Hxx & Hyy & E).
        injection E as -> -> -> ->.
        split; [reflexivity|]. split; [reflexivity|].
        apply Hxmem in Hxx. destruct Hxx as (i & Hi & ->).
        apply Hymem in Hyy. destruct Hyy as (j & Hj & ->).
        exists i, j. auto.
      * destruct (d_signatureImage d); [|contradiction].
        apply tileOps64_In in Hin. destruct Hin as (xx & yy & _ & _ & E).
        discriminate.
    + intros (-> & -> & i & j & Hi & Hj & -> & ->).
      right. apply in_or_app. left. apply tileOps64_In.
      exists (loopValue sp (inject_Z (- w)) i), (loopValue sp (inject_Z (- h)) j).
      split; [apply Hxmem; exists i; auto|].
      split; [apply Hymem; exists j; auto|reflexivity].
  - rewrite compositeBitmap64_count. rewrite Ht. fold w h.
    change (baseSpacing64 d) with sp. fold xs ys.
    destruct (d_signatureImage d); lia.
  - intros i Hi. apply (loopValue_close w (Z.max w h) (d_density d) Hw ltac:(lia) Hd).
    intros k Hk. apply Hxin. lia.
  - intros j Hj. apply (loopValue_close h (Z.max w h) (d_density d) Hh ltac:(lia) Hd).
    intros k Hk. apply Hyin. lia.
Qed.

(** C2, as the code has it. With a text signature, a base image of
    positive size and a density of the slider, the pass ends and draws
    the text at the points [(x_i, y_j)] and nowhere else, where
    [x_0 = -width] and [x_(i+1) = x_i + spacing] for as long as
    [x_i < 2 * width], [y_0 = -height] and [y_(j+1) = y_j + spacing] for
    as long as [y_j < 2 * height], with
    [spacing = max(width, height) / density], the quotient and every sum
    rounded to a double as the code computes them. There are between 1
    and [3 * density + 1] values on each axis, and the value of round
    [i] is the grid point [start + i * max / density] up to
    [21 * i * eps] of [max / density]. For an 800 by 600 base at density
    3 the spacing is the double next to [800 / 3], the second column is
    at [x = -800 + spacing], and 63 tiles are drawn; for 1024 by 768
    rounding leaves the tenth value of [x] just below [2048], so that a
    tenth column is drawn, 70 tiles in all. *)
Theorem text_tiles_step_by_spacing :
  (forall (fuel : nat) (d : Deps) (canvas : Canvas),
     0 < img_width (d_image d) -> 0 < img_height (d_image d) ->
     1 <= d_density d <= 5 -> (S (Z.to_nat (3 * d_density d)) < fuel)%nat ->
     truthy (d_signature d) = true ->
     exists (canvas' : Canvas) (url : DataURL) (nx ny : nat),
       composite64 fuel d canvas = Some (canvas', url) /\
       spacing64 canvas' (d_density d)
       = fdiv (inject_Z (Z.max (img_width (d_image d)) (img_height (d_image d))))
              (inject_Z (d_density d)) /\
       (1 <= nx <= S (Z.to_nat (3 * d_density d)))%nat /\
       (1 <= ny <= S (Z.to_nat (3 * d_density d)))%nat /\
       (forall i, (i < nx)%nat ->
          (loopValue (spacing64 canvas' (d_density d))
             (inject_Z (- cv_width canvas')) i
           < inject_Z (cv_width canvas' * 2))%Q) /\
       ~ (loopValue (spacing64 canvas' (d_density d))
            (inject_Z (- cv_width canvas')) nx
          < inject_Z (cv_width canvas' * 2))%Q /\
       (forall j, (j < ny)%nat ->
          (loopValue (spacing64 canvas' (d_density d))
             (inject_Z (- cv_height canvas')) j
           < inject_Z (cv_height canvas' * 2))%Q) /\
       ~ (loopValue (spacing64 canvas' (d_density d))
            (inject_Z (- cv_height canvas')) ny
          < inject_Z (cv_height canvas' * 2))%Q /\
       (forall (t : string) (x y : Q) (g : GState),
          In (FillText t x y g) (urlBitmap url) <->
          t = d_signature d /\ g = textState d /\
          exists i j : nat,
            (i < nx)%nat /\ (j < ny)%nat /\
            x = loopValue (spacing64 canvas' (d_density d))
                  (inject_Z (- cv_width canvas')) i /\
            y = loopValue (spacing64 canvas' (d_density d))
                  (inject_Z (- cv_height canvas')) j) /\
       tileCount (urlBitmap url)
       = ((1 + match d_signatureImage d with Some _ => 1 | None => 0 end)
          * (ny * nx))%nat /\
       (forall i, (i <= nx)%nat ->
          (Qabs (loopValue (spacing64 canvas' (d_density d))
                   (inject_Z (- cv_width canvas')) i
                 - (inject_Z (- cv_width canvas')
                    + qnat i
                      * (inject_Z (Z.max (cv_width canvas') (cv_height canvas'))
                         / inject_Z (d_density d))))
           <= qnat i
              * (inject_Z (Z.max (cv_width canvas') (cv_height canvas'))
                 / inject_Z (d_density d)) * (21 * eps))%Q) /\
       (forall j, (j <= ny)%nat ->
          (Qabs (loopValue (spacing64 canvas' (d_density d))
                   (inject_Z (- cv_height canvas')) j
                 - (inject_Z (- cv_height canvas')
                    + qnat j
                      * (inject_Z (Z.max (cv_width canvas') (cv_height canvas'))
                         / inject_Z (d_density d))))
           <= qnat j
              * (inject_Z (Z.max (cv_width canvas') (cv_height canvas'))
                 / inject_Z (d_density d)) * (21 * eps))%Q)) /\
  (exists canvas' url,
     composite64 12 janeDoe createCanvas = Some (canvas', url) /\
     (spacing64 canvas' 3 == 4691249611844267 # 17592186044416)%Q /\
     map (fun op => (Qred (fst (anchor op)), Qred (snd (anchor op))))
       (firstn 3 (urlBitmap url))
     = [(0, 0); (-800 # 1, -600 # 1);
        (-2345624805922133 # 4398046511104, -600 # 1)]%Q /\
     tileCount (urlBitmap url) = 63%nat) /\
  (exists canvas' url,
     composite64 12 janeDoeWide createCanvas = Some (canvas', url) /\
     nth_error (map (fun op => (Qred (fst (anchor op)), Qred (snd (anchor op))))
                  (urlBitmap url)) 10
     = Some (4503599627370495 # 2199023255552, -768 # 1)%Q /\
     (4503599627370495 # 2199023255552 < 2048)%Q /\
     tileCount (urlBitmap url) = 70%nat).
Proof.
  split; [exact text_tiles64_general|]. split.
  - eexists. eexists. split; [vm_compute; reflexivity|].
    split; [vm_compute; reflexivity|]. split; vm_compute; reflexivity.
  - eexists. eexists. split; [vm_compute; reflexivity|].
    split; [vm_compute; reflexivity|]. split; vm_compute; reflexivity.
Qed.

Lemma text_tiles_step_by_spacing_witness :
  exists canvas' url,
    composite64 12 janeDoe createCanvas = Some (canvas', url) /\
    In (FillText "Jane Doe"
          (loopValue (spacing64 canvas' 3) (inject_Z (- 800)) 4)
          (loopValue (spacing64 canvas' 3) (inject_Z (- 600)) 3)
          (textState janeDoe)) (urlBitmap url).
Proof.
  destruct (proj1 text_tiles_step_by_spacing 12%nat janeDoe createCanvas)
    as (c' & url & nx & ny & E & _ & _ & _ & _ & Hx & _ & Hy & Hgrid & _);
    [scenario ..|].
  exists c', url. split; [exact E|].
  vm_compute in E. injection E as <- <-.
  apply Hgrid. split; [reflexivity|]. split; [reflexivity|].
  exists 4%nat, 3%nat.
  assert (Hnx : (4 < nx)%nat).
  { destruct nx as [|[|[|[|[|nx]]]]]; try lia; exfalso; apply Hx;
      vm_compute; reflexivity. }
  assert (Hny : (3 < ny)%nat).
  { destruct ny as [|[|[|[|ny]]]]; try lia; exfalso; apply Hy;
      vm_compute; reflexivity. }
  repeat split; assumption.
Defined.

(** C2, as stated, fails on its example: for the 800 by 600 base with
    density 3 the step between tiles is not 200. *)
Lemma text_tiles_800x600_not_200_apart :
  exists canvas' url,
    composite64 12 janeDoe createCanvas = Some (canvas', url) /\
    ~ (spacing64 canvas' 3 == 200)%Q /\
    match map anchor (urlBitmap url) with
    | _ :: first :: second :: _ => ~ (fst second - fst first == 200)%Q
    | _ => False
    end.
Proof.
  eexists. eexists. split; [vm_compute; reflexivity|].
  split; vm_compute; discriminate.
Qed.

(** ** The number of tiles *)

(** X4. A pass draws at most [(3 * density + 1)^2] tiles for each
    signature kind supplied, however large the image: the work of the two
    loops is bounded by the density alone. The bound is met: a 512 by 512
    base at density 5 gets 16 rows of 16 text tiles, one row and one
    column more than [3 * density], which rounding lets in. *)
Theorem tiles_per_pass_are_bounded :
  (forall (fuel : nat) (d : Deps) (canvas : Canvas),
     0 < img_width (d_image d) -> 0 < img_height (d_image d) ->
     1 <= d_density d <= 5 -> (S (Z.to_nat (3 * d_density d)) < fuel)%nat ->
     exists canvas' url,
       composite64 fuel d canvas = Some (canvas', url) /\
       (tileCount (urlBitmap url)
        <= 2 * (S (Z.to_nat (3 * d_density d))
                * S (Z.to_nat (3 * d_density d))))%nat /\
       (d_signatureImage d = None \/ truthy (d_signature d) = false ->
        (tileCount (urlBitmap url)
         <= S (Z.to_nat (3 * d_density d))
            * S (Z.to_nat (3 * d_density d)))%nat)) /\
  (exists canvas' url,
     composite64 20 janeDoeDense createCanvas = Some (canvas', url) /\
     tileCount (urlBitmap url) = (16 * 16)%nat).
Proof.
  split.
  - intros fuel d canvas Hw Hh Hd Hfuel.
    rewrite (composite64_closed fuel d canvas Hw Hh Hd Hfuel).
    eexists. eexists. split; [reflexivity|].
    unfold passResult64, urlBitmap, snd. rewrite compositeBitmap64_count.
    set (w := img_width (d_image d)) in *.
    set (h := img_height (d_image d)) in *.
    destruct (range64_fits w (Z.max w h) (d_density d) fuel Hw ltac:(lia) Hd
                Hfuel) as [Rw _].
    destruct (range64_fits h (Z.max w h) (d_density d) fuel Hh ltac:(lia) Hd
                Hfuel) as [Rh _].
    change (fdiv (inject_Z (Z.max w h)) (inject_Z (d_density d)))
      with (baseSpacing64 d) in Rw, Rh.
    pose proof (Nat.mul_le_mono _ _ _ _ Rh Rw) as Rm.
    split.
    + destruct (truthy (d_signature d)); destruct (d_signatureImage d); lia.
    + intros [E|E]; rewrite E; destruct (truthy (d_signature d));
        try destruct (d_signatureImage d); lia.
  - eexists. eexists. split; vm_compute; reflexivity.
Qed.

Lemma tiles_per_pass_are_bounded_witness :
  exists canvas' url,
    composite64 12 janeDoeWide createCanvas = Some (canvas', url) /\
    (tileCount (urlBitmap url) <= 2 * (10 * 10))%nat /\
    (d_signatureImage janeDoeWide = None \/ truthy (d_signature janeDoeWide) = false ->
     (tileCount (urlBitmap url) <= 10 * 10)%nat).
Proof.
  apply (proj1 tiles_per_pass_are_bounded 12%nat janeDoeWide createCanvas);
    scenario.
Defined.
